(** * Job segmentation and single-detector job setup of pycbc.workflow.jobsetup

    A shallow embedding of [JobSegmenter], [identify_needed_data] and
    [sngl_ifo_job_setup] (src/pycbc/workflow/jobsetup.py), followed by the
    properties of the tiling and of the dependency wiring.

    Conventions of the embedding.
    - GPS times, data lengths and job counts are Python [int]s: [Z].
    - Python [float]s ([curr_seg_length], [job_time_shift], [data_per_job]
      and the 0.0001 fudge factor) are exact rationals: [Q].  Rounding of
      the binary representation is not modelled.
    - An exception is a value of [exn]; a computation that may raise returns
      [result]. *)

From Stdlib Require Import ZArith QArith Qround Qabs List Bool String Ascii
  DecimalString DecimalZ DecimalPos Lia.
Import ListNotations.

Local Open Scope string_scope.
Local Open Scope list_scope.
Local Open Scope Z_scope.

(** ** Exceptions *)

Inductive exn : Type :=
| ValueError (msg : string)
| ZeroDivisionError
| IndexError
| AttributeError.

Inductive result (A : Type) : Type :=
| Ok (a : A)
| Raise (e : exn).

Arguments Ok {A} a.
Arguments Raise {A} e.

Definition bind {A B : Type} (r : result A) (k : A -> result B) : result B :=
  match r with
  | Ok a => k a
  | Raise e => Raise e
  end.

Notation "x <- r ;; k" := (bind r (fun x => k))
  (at level 61, r at next level, right associativity).

Definition is_ok {A : Type} (r : result A) : bool :=
  match r with Ok _ => true | Raise _ => false end.

(** [xs[i]] on a Python list. *)
Definition py_index {A : Type} (xs : list A) (i : nat) : result A :=
  match nth_error xs i with
  | Some x => Ok x
  | None => Raise IndexError
  end.

(** ** Float helpers *)

Definition Qltb (x y : Q) : bool :=
  match Qcompare x y with Lt => true | _ => false end.

(** [int(x)] on a float: truncation towards zero. *)
Definition py_int (x : Q) : Z :=
  if Qle_bool 0 x then Qfloor x else Qceiling x.

(** The "small factor of 0.0001". *)
Definition fudge : Q := 1 # 10000.

(** ** ligo.segments.segment *)

Module Segments.

Record segment : Type := mk_seg { seg_start : Z; seg_end : Z }.

(** The constructor orders its two arguments. *)
Definition segment_of (a b : Z) : segment :=
  if a <=? b then mk_seg a b else mk_seg b a.

Definition seg_abs (s : segment) : Z := seg_end s - seg_start s.

Definition shift (s : segment) (x : Z) : segment :=
  mk_seg (seg_start s + x) (seg_end s + x).

(** [a.intersects(b)]: the intersection is not a null segment. *)
Definition intersects (a b : segment) : bool :=
  (seg_start b <? seg_end a) && (seg_start a <? seg_end b).

(** [t in s] for a point [t]. *)
Definition contains (s : segment) (t : Z) : bool :=
  (seg_start s <=? t) && (t <=? seg_end s).

(** [b in a] for a segment [b]. *)
Definition contains_seg (a b : segment) : bool :=
  (seg_start a <=? seg_start b) && (seg_end b <=? seg_end a).

Definition well_formed (s : segment) : Prop := seg_start s <= seg_end s.

End Segments.
Import Segments.

(** ** Executable classes, as far as the segmenter sees them *)

(** [zero_pad] is [Some (zero_padding, segment-start-pad, segment-end-pad)]
    for a class that defines [zero_pad_data_extend]
    ([PyCBCInspiralExecutable]) and [None] for the others. *)
Record ExeClass : Type := {
  exe_data_lengths : list Z;
  exe_valid_chunks : list segment;
  zero_pad : option (bool * Z * Z)
}.

(** [curr_exe_job.get_valid_times()]. *)
Definition get_valid_times (e : ExeClass) : list Z * list segment :=
  (exe_data_lengths e, exe_valid_chunks e).

(** [PyCBCInspiralExecutable.zero_pad_data_extend]. *)
Definition zero_pad_data_extend (zp : bool * Z * Z)
    (job_data_seg curr_seg : segment) : segment :=
  let '(zero_padding, start_pad, end_pad) := zp in
  if negb zero_padding then job_data_seg
  else
    let new_data_start := Z.max (seg_start curr_seg) (seg_start job_data_seg - start_pad) in
    let new_data_end := Z.min (seg_end curr_seg) (seg_end job_data_seg + end_pad) in
    segment_of new_data_start new_data_end.

(** ** identify_needed_data *)

Definition identify_needed_data (e : ExeClass) : list Z * list segment * list Z :=
  let '(data_lengths, valid_chunks) := get_valid_times e in
  let valid_lengths := map seg_abs valid_chunks in
  (data_lengths, valid_chunks, valid_lengths).

(** ** JobSegmenter *)

(** The loop of [pick_tile_size]: [i] is the running index of [enumerate]. *)
Fixpoint pick_loop (target_size : Q) (sizes : list Z) (i pick : nat)
    (pick_diff : Q) : nat * Q :=
  match sizes with
  | [] => (pick, pick_diff)
  | size :: rest =>
      if Qltb (Qabs (inject_Z size - target_size)) pick_diff
      then pick_loop target_size rest (S i) i (Qabs (inject_Z size - target_size))
      else pick_loop target_size rest (S i) pick pick_diff
  end.

(** The index chosen by [pick_tile_size]. *)
Definition pick_index (seg_size : Q) (valid_lengths : list Z) : result nat :=
  if (List.length valid_lengths =? 1)%nat then Ok 0%nat
  else
    let target_size := (seg_size / 3)%Q in
    first <- py_index valid_lengths 0 ;;
    Ok (fst (pick_loop target_size valid_lengths 0 0
               (Qabs (inject_Z first - target_size)))).

Definition pick_tile_size (seg_size : Q) (data_lengths : list Z)
    (valid_chunks : list segment) (valid_lengths : list Z)
    : result (Z * segment * Z) :=
  pick <- pick_index seg_size valid_lengths ;;
  dl <- py_index data_lengths pick ;;
  vc <- py_index valid_chunks pick ;;
  vl <- py_index valid_lengths pick ;;
  Ok (dl, vc, vl).

(** The attributes of a [JobSegmenter].  [job_time_shift] is [None] when
    [__init__] returned before assigning it. *)
Record JobSegmenter : Type := {
  exe_class : ExeClass;
  curr_seg : segment;
  curr_seg_length : Q;
  data_length : Z;
  valid_chunk : segment;
  valid_length : Z;
  data_chunk : segment;
  data_loss : Z;
  num_jobs : Z;
  job_time_shift : option Q
}.

(** "How many jobs do we need":
    [int(math.ceil((curr_seg_length - data_loss) / float(valid_length)))]. *)
Definition count_jobs (curr_seg_length : Q) (data_loss valid_length : Z) : result Z :=
  if valid_length =? 0 then Raise ZeroDivisionError
  else Ok (Qceiling ((curr_seg_length - inject_Z data_loss) / inject_Z valid_length)).

(** The incremental shift between jobs: the two branches after the job
    count in [__init__]. *)
Definition compute_shift (curr_seg_length : Q) (data_length num_jobs : Z) : result Q :=
  if Qeq_bool curr_seg_length (inject_Z data_length) then Ok 0%Q
  else if num_jobs - 1 =? 0 then Raise ZeroDivisionError
  else Ok ((curr_seg_length - inject_Z data_length) / inject_Z (num_jobs - 1))%Q.

Definition needs_fixing : exn :=
  ValueError "pycbc.workflow.jobsetup needs fixing! Please contact a developer".

(** [JobSegmenter.__init__]. *)
Definition JobSegmenter_init (data_lengths : list Z) (valid_chunks : list segment)
    (valid_lengths : list Z) (curr_seg : segment) (curr_exe_class : ExeClass)
    : result JobSegmenter :=
  let curr_seg_length := inject_Z (seg_abs curr_seg) in
  tile <- pick_tile_size curr_seg_length data_lengths valid_chunks valid_lengths ;;
  let '(data_length, valid_chunk, valid_length) := tile in
  let data_chunk := segment_of 0 data_length in
  let data_loss := data_length - seg_abs valid_chunk in
  if data_loss <? 0 then Raise needs_fixing
  else if Qltb curr_seg_length (inject_Z data_length) then
    Ok {| exe_class := curr_exe_class; curr_seg := curr_seg;
          curr_seg_length := curr_seg_length; data_length := data_length;
          valid_chunk := valid_chunk; valid_length := valid_length;
          data_chunk := data_chunk; data_loss := data_loss;
          num_jobs := 0; job_time_shift := None |}
  else
    num_jobs <- count_jobs curr_seg_length data_loss valid_length ;;
    job_time_shift <- compute_shift curr_seg_length data_length num_jobs ;;
    Ok {| exe_class := curr_exe_class; curr_seg := curr_seg;
          curr_seg_length := curr_seg_length; data_length := data_length;
          valid_chunk := valid_chunk; valid_length := valid_length;
          data_chunk := data_chunk; data_loss := data_loss;
          num_jobs := num_jobs; job_time_shift := Some job_time_shift |}.

(** Reading [self.job_time_shift]. *)
Definition get_job_time_shift (sg : JobSegmenter) : result Q :=
  match job_time_shift sg with
  | Some s => Ok s
  | None => Raise AttributeError
  end.

(** [int(self.job_time_shift * num_job + 0.0001)]: the offset of job
    [num_job] from the start of the science segment. *)
Definition job_offset (job_time_shift : Q) (num_job : Z) : Z :=
  py_int (job_time_shift * inject_Z num_job + fudge)%Q.

(** [shift_dur], computed by the same expression in both methods. *)
Definition shift_dur (sg : JobSegmenter) (num_job : Z) : result Z :=
  s <- get_job_time_shift sg ;;
  Ok (seg_start (curr_seg sg) + job_offset s num_job).

Definition not_valid : exn :=
  ValueError "Workflow is attempting to generate output from a job at times where it is not valid.".

(** [JobSegmenter.get_valid_times_for_job]. *)
Definition get_valid_times_for_job (sg : JobSegmenter) (num_job : Z)
    (allow_overlap : bool) : result segment :=
  sd <- shift_dur sg num_job ;;
  let job_valid_seg := shift (valid_chunk sg) sd in
  if negb allow_overlap then
    if num_jobs sg =? 0 then Raise ZeroDivisionError
    else
      let data_per_job :=
        ((curr_seg_length sg - inject_Z (data_loss sg)) / inject_Z (num_jobs sg))%Q in
      let lower_boundary :=
        (inject_Z num_job * data_per_job + inject_Z (seg_start (valid_chunk sg))
         + inject_Z (seg_start (curr_seg sg)))%Q in
      let upper_boundary := (data_per_job + lower_boundary)%Q in
      let lower := py_int lower_boundary in
      let upper := py_int (upper_boundary + fudge)%Q in
      if (lower <? seg_start job_valid_seg) || (seg_end job_valid_seg <? upper)
      then Raise not_valid
      else Ok (segment_of lower upper)
  else Ok job_valid_seg.

Definition not_from_start : exn :=
  ValueError "Job is not using data from the start of the science segment. It should be using all data.".

Definition not_to_end : exn :=
  ValueError "Job is not using data from the end of the science segment. It should be using all data.".

(** [JobSegmenter.get_data_times_for_job]. *)
Definition get_data_times_for_job (sg : JobSegmenter) (num_job : Z) : result segment :=
  sd <- shift_dur sg num_job ;;
  let job_data_seg := shift (data_chunk sg) sd in
  _ <- (if num_job =? 0 then
          if negb (seg_start job_data_seg =? seg_start (curr_seg sg))
          then Raise not_from_start else Ok tt
        else Ok tt) ;;
  _ <- (if num_job =? num_jobs sg - 1 then
          if negb (seg_end job_data_seg =? seg_end (curr_seg sg))
          then Raise not_to_end else Ok tt
        else Ok tt) ;;
  match zero_pad (exe_class sg) with
  | Some zp => Ok (zero_pad_data_extend zp job_data_seg (curr_seg sg))
  | None => Ok job_data_seg
  end.

(** ** The jobs of one science segment *)

(** [range(n)]. *)
Definition py_range (n : Z) : list Z := map Z.of_nat (seq 0 (Z.to_nat n)).

Fixpoint map_result {A B : Type} (f : A -> result B) (xs : list A) : result (list B) :=
  match xs with
  | [] => Ok []
  | x :: rest =>
      y <- f x ;;
      ys <- map_result f rest ;;
      Ok (y :: ys)
  end.

(** The valid windows of all the jobs of a segmenter, in job order: what the
    loop [for job_num in range(segmenter.num_jobs)] obtains from
    [get_valid_times_for_job]. *)
Definition job_valid_windows (sg : JobSegmenter) (allow_overlap : bool)
    : result (list segment) :=
  map_result (fun job_num => get_valid_times_for_job sg job_num allow_overlap)
             (py_range (num_jobs sg)).

(** Likewise for [get_data_times_for_job]. *)
Definition job_data_windows (sg : JobSegmenter) : result (list segment) :=
  map_result (get_data_times_for_job sg) (py_range (num_jobs sg)).

(** Steps (1) and (2) of [sngl_ifo_job_setup] for one science segment. *)
Definition segmenter_for (curr_exe_job : ExeClass) (curr_seg : segment)
    : result JobSegmenter :=
  let '(data_length, valid_chunk, valid_length) := identify_needed_data curr_exe_job in
  JobSegmenter_init data_length valid_chunk valid_length curr_seg curr_exe_job.

(** A point of time lies in one of the windows. *)
Definition covered (ws : list segment) (t : Z) : bool :=
  existsb (fun w => contains w t) ws.

(** ** Files and strings *)

Record File : Type := {
  file_ifo : string;
  file_segment : segment;
  file_tags : list string
}.

Definition ascii_lower (c : ascii) : ascii :=
  let n := nat_of_ascii c in
  if ((65 <=? n) && (n <=? 90))%nat then ascii_of_nat (n + 32) else c.

Fixpoint str_lower (s : string) : string :=
  match s with
  | EmptyString => EmptyString
  | String c rest => String (ascii_lower c) (str_lower rest)
  end.

(** [p in s] on strings. *)
Fixpoint str_in (p s : string) : bool :=
  prefix p s ||
  match s with
  | EmptyString => false
  | String _ rest => str_in p rest
  end.

(** [x in tags] on a list of strings. *)
Definition tag_in (x : string) (tags : list string) : bool :=
  existsb (String.eqb x) tags.

(** [[t for t in parent.tags if 'bank' in t.lower()]]. *)
Definition bank_tag (parent : File) : list string :=
  filter (fun t => str_in "bank" (str_lower t)) (file_tags parent).

(** Truth value of a list. *)
Definition truthy {A : Type} (xs : list A) : bool :=
  match xs with [] => false | _ => true end.

(** Truth value of an optional list ([None] is false). *)
Definition truthy_opt {A : Type} (xs : option (list A)) : bool :=
  match xs with Some l => truthy l | None => false end.

(** ["\n"]. *)
Definition newline : string := String (ascii_of_nat 10) EmptyString.

(** ["%d" % z]. *)
Definition str_of_Z (z : Z) : string := NilZero.string_of_int (Z.to_int z).

(** ["... overlapping %d to %d." % (seg[0], seg[1])]. *)
Definition overlapping_msg (what : string) (seg : segment) : string :=
  (what ++ " jobs found overlapping " ++ str_of_Z (seg_start seg) ++ " to "
        ++ str_of_Z (seg_end seg) ++ ".")%string.

Definition no_parent_jobs (job_valid_seg : segment) : exn :=
  ValueError (overlapping_msg "No parent" job_valid_seg
              ++ newline ++ "This is a bad error! Contact a developer.")%string.

Definition no_datafind_jobs (job_data_seg : segment) : exn :=
  ValueError (overlapping_msg "No datafind" job_data_seg
              ++ newline ++ "This shouldn't happen. Contact a developer.")%string.

(** ** The catalog *)

(** Modelled from the spec: [FileList.find_outputs_in_range] and
    [FileList.find_all_output_in_range] belong to pycbc.workflow.core, which
    is not among the sources.  Following section 4.3 of the specification,
    the resolver selects every artifact of the catalog whose interval
    overlaps the target interval and whose owner is the one asked for,
    in catalog order. *)
Definition matches (owner : string) (target : segment) (f : File) : bool :=
  String.eqb (file_ifo f) owner && intersects (file_segment f) target.

Definition find_overlapping (catalog : list File) (owner : string)
    (target : segment) : list File :=
  filter (matches owner target) catalog.

(** ** sngl_ifo_job_setup *)

(** The list held by an optional [FileList]. *)
Definition files_of (parents : option (list File)) : list File :=
  match parents with Some l => l | None => [] end.

Section Driver.

(** The node type, the mutable part of the executable (its current tags)
    and the methods of pycbc.workflow.core that the driver calls. *)
Variable Node : Type.
Variable ExeState : Type.
Variable exe_tags_of : ExeState -> list string.
Variable update_current_tags : list string -> ExeState -> ExeState.
Variable create_node :
  ExeState -> segment -> segment -> option File -> option (list File) -> result Node.
Variable output_files : Node -> list File.
Variable find_outputs_in_range : list File -> string -> segment -> list File.
Variable find_all_output_in_range : list File -> string -> segment -> list File.

(** What the driver mutates: the workflow's nodes, the executable and the
    [out_files] list. *)
Record DriverState : Type := {
  wf_nodes : list Node;
  exe_state : ExeState;
  out_files : list File
}.

(** State and exceptions: a raised exception keeps the state reached. *)
Definition M (A : Type) : Type := DriverState -> DriverState * result A.

Definition ret {A : Type} (a : A) : M A := fun st => (st, Ok a).

Definition raise {A : Type} (e : exn) : M A := fun st => (st, Raise e).

Definition lift {A : Type} (r : result A) : M A := fun st => (st, r).

Definition bindM {A B : Type} (m : M A) (k : A -> M B) : M B :=
  fun st =>
    match m st with
    | (st', Ok a) => k a st'
    | (st', Raise e) => (st', Raise e)
    end.

Notation "x <~ m ;; k" := (bindM m (fun x => k))
  (at level 61, m at next level, right associativity).

Fixpoint for_each {A : Type} (xs : list A) (body : A -> M unit) : M unit :=
  match xs with
  | [] => ret tt
  | x :: rest => _ <~ body x ;; for_each rest body
  end.

Definition set_current_tags (tags : list string) : M unit :=
  fun st => ({| wf_nodes := wf_nodes st;
                exe_state := update_current_tags tags (exe_state st);
                out_files := out_files st |}, Ok tt).

(** [workflow.add_node(node)]. *)
Definition add_node (node : Node) : M unit :=
  fun st => ({| wf_nodes := wf_nodes st ++ [node];
                exe_state := exe_state st;
                out_files := out_files st |}, Ok tt).

(** [out_files += curr_out_files]. *)
Definition extend_out_files (fs : list File) : M unit :=
  fun st => ({| wf_nodes := wf_nodes st;
                exe_state := exe_state st;
                out_files := out_files st ++ fs |}, Ok tt).

Definition call_create_node (job_data_seg job_valid_seg : segment)
    (parent : option File) (df_parents : option (list File)) : M Node :=
  fun st => (st, create_node (exe_state st) job_data_seg job_valid_seg parent df_parents).

(** Step (5): the parents and the data inputs of one job. *)
Definition resolve_job_inputs (ifo : string) (parents : option (list File))
    (datafind_outs : list File) (job_valid_seg job_data_seg : segment)
    : result (list (option File) * option (list File)) :=
  curr_parent <-
    (if truthy_opt parents then
       let found := find_outputs_in_range (files_of parents)
                                          ifo job_valid_seg in
       if negb (truthy found) then Raise (no_parent_jobs job_valid_seg)
       else Ok (map Some found)
     else Ok [None]) ;;
  curr_dfouts <-
    (if truthy datafind_outs then
       let found := find_all_output_in_range datafind_outs ifo job_data_seg in
       if negb (truthy found) then Raise (no_datafind_jobs job_data_seg)
       else Ok (Some found)
     else Ok None) ;;
  Ok (curr_parent, curr_dfouts).

(** Step (6): the body of [for parent in curr_parent]. *)
Definition emit_node (exe_tags : list string) (curr_parent : list (option File))
    (job_data_seg job_valid_seg : segment) (curr_dfouts : option (list File))
    (parent : option File) : M unit :=
  _ <~ (if negb (List.length curr_parent =? 1)%nat then
          match parent with
          | Some p => set_current_tags (bank_tag p ++ exe_tags)
          | None => raise AttributeError
          end
        else ret tt) ;;
  node <~ call_create_node job_data_seg job_valid_seg parent curr_dfouts ;;
  _ <~ add_node node ;;
  let curr_out_files :=
    filter (fun i => negb (tag_in "PSD_FILE" (file_tags i))) (output_files node) in
  extend_out_files curr_out_files.

(** The body of [for job_num in range(segmenter.num_jobs)]. *)
Definition setup_job (ifo : string) (parents : option (list File))
    (datafind_outs : list File) (allow_overlap : bool) (exe_tags : list string)
    (segmenter : JobSegmenter) (job_num : Z) : M unit :=
  job_valid_seg <~ lift (get_valid_times_for_job segmenter job_num allow_overlap) ;;
  job_data_seg <~ lift (get_data_times_for_job segmenter job_num) ;;
  inputs <~ lift (resolve_job_inputs ifo parents datafind_outs
                    job_valid_seg job_data_seg) ;;
  let '(curr_parent, curr_dfouts) := inputs in
  for_each curr_parent
    (emit_node exe_tags curr_parent job_data_seg job_valid_seg curr_dfouts).

(** The body of [for curr_seg in science_segs]. *)
Definition setup_segment (ifo : string) (curr_exe_job : ExeClass)
    (parents : option (list File)) (datafind_outs : list File)
    (allow_overlap : bool) (exe_tags : list string) (curr_seg : segment) : M unit :=
  segmenter <~ lift (segmenter_for curr_exe_job curr_seg) ;;
  for_each (py_range (num_jobs segmenter))
    (setup_job ifo parents datafind_outs allow_overlap exe_tags segmenter).

Definition sngl_ifo_job_setup (ifo : string) (curr_exe_job : ExeClass)
    (science_segs : list segment) (datafind_outs : list File)
    (parents : option (list File)) (allow_overlap : bool) : M (list File) :=
  fun st =>
    let exe_tags := exe_tags_of (exe_state st) in
    match for_each science_segs
            (setup_segment ifo curr_exe_job parents datafind_outs
               allow_overlap exe_tags) st with
    | (st', Ok _) => (st', Ok (out_files st'))
    | (st', Raise e) => (st', Raise e)
    end.

End Driver.

Arguments wf_nodes {Node ExeState} d.
Arguments exe_state {Node ExeState} d.
Arguments out_files {Node ExeState} d.
Arguments ret {Node ExeState A} a _.
Arguments raise {Node ExeState A} e _.
Arguments lift {Node ExeState A} r _.
Arguments bindM {Node ExeState A B} m k _.
Arguments for_each {Node ExeState A} xs body _.
Arguments set_current_tags {Node ExeState} update_current_tags tags _.
Arguments add_node {Node ExeState} node _.
Arguments extend_out_files {Node ExeState} fs _.
Arguments call_create_node {Node ExeState} create_node job_data_seg job_valid_seg
  parent df_parents _.
Arguments emit_node {Node ExeState} update_current_tags create_node output_files
  exe_tags curr_parent job_data_seg job_valid_seg curr_dfouts parent _.
Arguments setup_job {Node ExeState} update_current_tags create_node output_files
  find_outputs_in_range find_all_output_in_range ifo parents datafind_outs
  allow_overlap exe_tags segmenter job_num _.
Arguments setup_segment {Node ExeState} update_current_tags create_node output_files
  find_outputs_in_range find_all_output_in_range ifo curr_exe_job parents
  datafind_outs allow_overlap exe_tags curr_seg _.
Arguments sngl_ifo_job_setup {Node ExeState} exe_tags_of update_current_tags
  create_node output_files find_outputs_in_range find_all_output_in_range ifo
  curr_exe_job science_segs datafind_outs parents allow_overlap _.

(** ** Closed forms used in the statements *)

(** The job count as a ceiling division of integers. *)
Definition jobs_needed (L D V : Z) : Z := - ((- (L - (D - V))) / V).

(** The shift between jobs of a segment of length [L] tiled with data
    length [D] and valid length [V]. *)
Definition tile_shift (L D V : Z) : Q :=
  if L =? D then 0%Q
  else ((inject_Z L - inject_Z D) / inject_Z (jobs_needed L D V - 1))%Q.

(** What [__init__] establishes when it goes on to count the jobs of a
    profile with well-formed valid chunks. *)
Record Tiled (sg : JobSegmenter) : Prop := {
  tiled_length : curr_seg_length sg = inject_Z (seg_abs (curr_seg sg));
  tiled_valid_length : valid_length sg = seg_abs (valid_chunk sg);
  tiled_loss : data_loss sg = data_length sg - valid_length sg;
  tiled_chunk : data_chunk sg = mk_seg 0 (data_length sg);
  tiled_valid_pos : 0 < valid_length sg;
  tiled_loss_nonneg : 0 <= data_length sg - valid_length sg;
  tiled_long_enough : data_length sg <= seg_abs (curr_seg sg);
  tiled_jobs :
    num_jobs sg = jobs_needed (seg_abs (curr_seg sg)) (data_length sg) (valid_length sg);
  tiled_shift :
    job_time_shift sg =
    Some (tile_shift (seg_abs (curr_seg sg)) (data_length sg) (valid_length sg))
}.

(** The data window of a job before and after the optional extension. *)
Definition extend_data (sg : JobSegmenter) (job_data_seg : segment) : segment :=
  match zero_pad (exe_class sg) with
  | Some zp => zero_pad_data_extend zp job_data_seg (curr_seg sg)
  | None => job_data_seg
  end.

(** The paddings of [zero_pad_data_extend] are not negative. *)
Definition pads_nonneg (e : ExeClass) : Prop :=
  match zero_pad e with
  | Some (_, start_pad, end_pad) => 0 <= start_pad /\ 0 <= end_pad
  | None => True
  end.

(** The offset of job [i] in a tiled segment. *)
Definition tiled_offset (sg : JobSegmenter) (i : Z) : Z :=
  job_offset
    (tile_shift (seg_abs (curr_seg sg)) (data_length sg) (valid_length sg)) i.

(** The valid window of job [i] when overlap is allowed. *)
Definition valid_window (sg : JobSegmenter) (i : Z) : segment :=
  shift (valid_chunk sg) (seg_start (curr_seg sg) + tiled_offset sg i).

(** The data window of job [i] before the optional extension. *)
Definition data_window (sg : JobSegmenter) (i : Z) : segment :=
  shift (mk_seg 0 (data_length sg)) (seg_start (curr_seg sg) + tiled_offset sg i).

(** Distance of a valid length from the target size of [pick_tile_size]. *)
Definition tile_distance (target_size : Q) (size : Z) : Q :=
  Qabs (inject_Z size - target_size).


(** ** Scenarios of the specification *)

(** Scenario 1: data length 2048, valid chunk [72, 1976], segment [0, 6000]. *)
Definition scenario_exe : ExeClass :=
  {| exe_data_lengths := [2048];
     exe_valid_chunks := [mk_seg 72 1976];
     zero_pad := None |}.

Definition scenario_seg : segment := mk_seg 0 6000.

Definition scenario_segmenter : JobSegmenter :=
  {| exe_class := scenario_exe;
     curr_seg := scenario_seg;
     curr_seg_length := inject_Z 6000;
     data_length := 2048;
     valid_chunk := mk_seg 72 1976;
     valid_length := 1904;
     data_chunk := mk_seg 0 2048;
     data_loss := 144;
     num_jobs := 4;
     job_time_shift := Some (3952 # 3) |}.

(** A long segment: data length 20002 with nothing lost, 20000 jobs. *)
Definition many_jobs_exe : ExeClass :=
  {| exe_data_lengths := [20002];
     exe_valid_chunks := [mk_seg 0 20002];
     zero_pad := None |}.

Definition many_jobs_seg : segment := mk_seg 0 400019999.

(** Scenario 2: the same profile on a segment of length 1000. *)
Definition short_seg : segment := mk_seg 0 1000.

(** Scenarios 3 and 4: a bank covering [50, 2000] and a second one covering
    the same times. *)
Definition bank_a : File :=
  {| file_ifo := "H1"; file_segment := mk_seg 50 2000; file_tags := ["BANK0"] |}.

Definition bank_b : File :=
  {| file_ifo := "H1"; file_segment := mk_seg 50 2000; file_tags := ["BANK1"] |}.

Definition frame_a : File :=
  {| file_ifo := "H1"; file_segment := mk_seg 0 6000; file_tags := [] |}.

(** A node that records the arguments it was created with. *)
Definition RecordedNode : Type :=
  (list string * segment * segment * option File * option (list File))%type.

Definition record_node (tags : list string) (data_seg valid_seg : segment)
    (parent : option File) (df_parents : option (list File)) : result RecordedNode :=
  Ok (tags, data_seg, valid_seg, parent, df_parents).

Definition replace_tags (tags : list string) (_ : list string) : list string := tags.

Definition no_output_files (_ : RecordedNode) : list File := [].

Definition empty_state : DriverState RecordedNode (list string) :=
  {| wf_nodes := []; exe_state := []; out_files := [] |}.

(** ** Further functions of jobsetup.py *)

(** [int(s)] on a decimal string. *)
Definition Z_of_str (s : string) : option Z :=
  option_map Z.of_int (NilZero.int_of_string s).

(** [int_gps_time_to_str].  The time is an [int] or a [lal.LIGOTimeGPS],
    both exact, hence a rational; [str_t] is what [str(t)] prints. *)
Definition int_gps_time_to_str (str_t : Q -> string) (t : Q) : result string :=
  let int_t := py_int t in
  if Qltb 0 (Qabs (t - inject_Z int_t))
  then Raise (ValueError ("Need an integer GPS time, got " ++ str_t t)%string)
  else Ok (str_of_Z int_t).

(** [range(a, b)]. *)
Definition py_range_from (a b : Z) : list Z :=
  map (fun k => a + Z.of_nat k) (seq 0 (Z.to_nat (b - a))).

(** The options read by [PyCBCTmpltbankExecutable.get_valid_times], after
    [int()]. *)
Record TmpltbankOptions : Type := {
  tb_pad_data : Z;
  tb_analysis_length : Z
}.

(** [PyCBCTmpltbankExecutable.get_valid_times]. *)
Definition tmpltbank_get_valid_times (o : TmpltbankOptions) : list Z * list segment :=
  let pad_data := tb_pad_data o in
  let analysis_length := tb_analysis_length o in
  let data_length := analysis_length + pad_data * 2 in
  let start := pad_data in
  let end_ := data_length - pad_data in
  ([data_length], [segment_of start end_]).

(** A [PyCBCTmpltbankExecutable] as the segmenter sees it: the class has no
    [zero_pad_data_extend]. *)
Definition tmpltbank_exe (o : TmpltbankOptions) : ExeClass :=
  {| exe_data_lengths := fst (tmpltbank_get_valid_times o);
     exe_valid_chunks := snd (tmpltbank_get_valid_times o);
     zero_pad := None |}.

(** The options read by [PyCBCInspiralExecutable.get_valid_times], after
    [int()].  The four options of [workflow-matchedfilter] and [pad-data]
    are tested for presence by the code; the others are read directly. *)
Record InspiralOptions : Type := {
  min_analysis_segments : option Z;
  max_analysis_segments : option Z;
  min_analysis_length : option Z;
  max_analysis_length : option Z;
  segment_length : Z;
  pad_data : option Z;
  allow_zero_padding : bool;
  segment_start_pad : Z;
  segment_end_pad : Z
}.

Definition opt_default (o : option Z) (d : Z) : Z :=
  match o with Some z => z | None => d end.

(** The data length and the start and end of the valid region for a given
    analysis length: the two branches on [self.zero_padding]. *)
Definition inspiral_region (o : InspiralOptions) (pad_data : Z)
    (analysis_length : option Z) (fixed_length : Z) : Z * Z * Z :=
  let start_pad := segment_start_pad o in
  let end_pad := segment_end_pad o in
  if negb (allow_zero_padding o) then
    let data_length :=
      match analysis_length with
      | Some al => al + pad_data * 2 + start_pad + end_pad
      | None => fixed_length
      end in
    (data_length, pad_data + start_pad, data_length - pad_data - end_pad)
  else
    let data_length :=
      match analysis_length with
      | Some al => al + pad_data * 2
      | None => fixed_length
      end in
    (data_length, pad_data, data_length - pad_data).

(** The loop [for nsegs in seg_ranges] with its two accumulators. *)
Fixpoint inspiral_loop (o : InspiralOptions) (pad_data min_len max_len : Z)
    (seg_ranges : list Z) (data_lengths : list Z) (valid_regions : list segment)
    : list Z * list segment :=
  match seg_ranges with
  | [] => (data_lengths, valid_regions)
  | nsegs :: rest =>
      let analysis_length :=
        (segment_length o - segment_start_pad o - segment_end_pad o) * nsegs in
      let '(data_length, start, end_) :=
        inspiral_region o pad_data (Some analysis_length) 0 in
      if max_len <? data_length then
        inspiral_loop o pad_data min_len max_len rest data_lengths valid_regions
      else if data_length <? min_len then
        inspiral_loop o pad_data min_len max_len rest data_lengths valid_regions
      else
        inspiral_loop o pad_data min_len max_len rest
          (data_lengths ++ [data_length])
          (valid_regions ++ [segment_of start end_])
  end.

(** [PyCBCInspiralExecutable.get_valid_times]. *)
Definition inspiral_get_valid_times (o : InspiralOptions) : list Z * list segment :=
  let min_analysis_segs := opt_default (min_analysis_segments o) 0 in
  let max_analysis_segs := opt_default (max_analysis_segments o) 1000 in
  let min_len := opt_default (min_analysis_length o) 0 in
  let max_len := opt_default (max_analysis_length o) 100000 in
  let pad := 0 + opt_default (pad_data o) 0 in
  let seg_ranges := py_range_from min_analysis_segs (max_analysis_segs + 1) in
  let '(data_lengths, valid_regions) :=
    inspiral_loop o pad min_len max_len seg_ranges [] [] in
  if negb (min_len =? 0) then
    let '(data_length, start, end_) := inspiral_region o pad None min_len in
    if start <? end_ then
      (data_lengths ++ [data_length], valid_regions ++ [segment_of start end_])
    else (data_lengths, valid_regions)
  else (data_lengths, valid_regions).

(** A [PyCBCInspiralExecutable] as the segmenter sees it, after
    [get_valid_times] has set [self.zero_padding]. *)
Definition inspiral_exe (o : InspiralOptions) : ExeClass :=
  {| exe_data_lengths := fst (inspiral_get_valid_times o);
     exe_valid_chunks := snd (inspiral_get_valid_times o);
     zero_pad := Some (allow_zero_padding o, segment_start_pad o, segment_end_pad o) |}.

(** The data lost by an inspiral job: what it reads and does not analyse. *)
Definition inspiral_loss (o : InspiralOptions) : Z :=
  if allow_zero_padding o then opt_default (pad_data o) 0 * 2
  else opt_default (pad_data o) 0 * 2 + segment_start_pad o + segment_end_pad o.

(** Options under which the valid regions are what they are meant to be. *)
Definition sane_inspiral_options (o : InspiralOptions) : Prop :=
  0 <= opt_default (pad_data o) 0 /\
  0 <= segment_start_pad o /\ 0 <= segment_end_pad o /\
  segment_start_pad o + segment_end_pad o <= segment_length o /\
  0 <= opt_default (min_analysis_segments o) 0.

(** The data window a job returns: [get_data_times_for_job] in a tiled
    segment. *)
Definition returned_data_window (sg : JobSegmenter) (i : Z) : segment :=
  extend_data sg (data_window sg i).

(** What one entry of the inspiral profile satisfies under sane options. *)
Definition region_inv (o : InspiralOptions) (dl : Z) (vc : segment) : Prop :=
  0 <= seg_start vc /\ seg_start vc <= seg_end vc /\ seg_end vc <= dl /\
  dl - seg_abs vc = inspiral_loss o /\ 0 <= inspiral_loss o.

(** An inspiral configuration: 256 s segments of which the first 64 s and
    the last 16 s are dropped, 8 s of pad data, one to three analysis
    segments. *)
Definition example_inspiral : InspiralOptions :=
  {| min_analysis_segments := Some 1;
     max_analysis_segments := Some 3;
     min_analysis_length := None;
     max_analysis_length := None;
     segment_length := 256;
     pad_data := Some 8;
     allow_zero_padding := false;
     segment_start_pad := 64;
     segment_end_pad := 16 |}.

Definition example_tmpltbank : TmpltbankOptions :=
  {| tb_pad_data := 8; tb_analysis_length := 2032 |}.

(** ** Vocabulary for the driver *)

(** A file that does not carry the [PSD_FILE] tag. *)
Definition not_psd (f : File) : Prop := tag_in "PSD_FILE" (file_tags f) = false.

(** The driver state [st'] extends [st]: nodes and output files were
    appended, none was removed, and no appended file is a PSD file. *)
Definition grows {Node ExeState : Type} (st st' : DriverState Node ExeState) : Prop :=
  exists nodes files,
    wf_nodes st' = wf_nodes st ++ nodes /\
    out_files st' = out_files st ++ files /\
    Forall not_psd files.

Definition only_appends {Node ExeState A : Type} (m : M Node ExeState A) : Prop :=
  forall st, grows st (fst (m st)).




(** ** multi_ifo_coherent_job_setup *)

(** The attributes of a [File] that the coherent setup reads. *)
Record CohFile : Type := {
  coh_name : string;
  coh_description : string;
  coh_tag_str : string
}.

(** [xs[-k]] for [k >= 1]. *)
Definition py_index_back {A : Type} (xs : list A) (k : nat) : result A :=
  if (List.length xs <? k)%nat then Raise IndexError
  else py_index xs (List.length xs - k).

(** [xs[:-k]]. *)
Definition py_drop_back {A : Type} (xs : list A) (k : nat) : list A :=
  firstn (List.length xs - k) xs.

(** The first part of [multi_ifo_coherent_job_setup]: the sky points file,
    the bank veto file and the frame files found in [datafind_outs]. *)
Definition split_datafind_outs (datafind_outs : list CohFile)
    : result (option CohFile * option CohFile * list CohFile) :=
  last1 <- py_index_back datafind_outs 1 ;;
  is_ipn <-
    (if str_in "IPN" (coh_description last1) then
       last2 <- py_index_back datafind_outs 2 ;;
       Ok (str_in "bank_veto_bank" (coh_description last2))
     else Ok false) ;;
  if is_ipn : bool then
    ipn_sky_points <- py_index_back datafind_outs 1 ;;
    bank_veto <- py_index_back datafind_outs 2 ;;
    Ok (Some ipn_sky_points, Some bank_veto, py_drop_back datafind_outs 2)
  else
    last1' <- py_index_back datafind_outs 1 ;;
    if str_in "bank_veto_bank" (coh_name last1') then
      bank_veto <- py_index_back datafind_outs 1 ;;
      Ok (None, Some bank_veto, py_drop_back datafind_outs 1)
    else Ok (None, None, datafind_outs).

Section CoherentDriver.

Variable Node : Type.
Variable ExeState : Type.
Variable Slide : Type.

(** [curr_exe_job.create_node] with the keyword arguments the setup gives:
    data segment, valid segment, parent, injection file, frame files, bank
    veto file, sky points file, slide and tags. *)
Variable coh_create_node :
  segment -> segment -> CohFile -> option CohFile -> list CohFile ->
  option CohFile -> option CohFile -> option Slide -> list string -> result Node.
Variable output_files : Node -> list File.

(** The body of the two loops: create the node, add it to the workflow and
    collect its output files. *)
Definition coh_emit (data_seg job_valid_seg : segment) (frame_files : list CohFile)
    (bank_veto ipn_sky_points : option CohFile) (slide : option Slide)
    (tag : list string) (inj_file : option CohFile) (split_bank : CohFile)
    (curr_out_files : list File) : M Node ExeState (list File) :=
  bindM (lift (coh_create_node data_seg job_valid_seg split_bank inj_file
                 frame_files bank_veto ipn_sky_points slide tag))
    (fun node =>
       bindM (add_node node)
         (fun _ => ret (curr_out_files ++ output_files node))).

(** [for split_bank in parents] with the accumulated output files. *)
Fixpoint coh_banks_loop (emit : CohFile -> list File -> M Node ExeState (list File))
    (parents : list CohFile) (curr_out_files : list File)
    : M Node ExeState (list File) :=
  match parents with
  | [] => ret curr_out_files
  | split_bank :: rest =>
      bindM (emit split_bank curr_out_files)
        (fun curr_out_files' => coh_banks_loop emit rest curr_out_files')
  end.

(** [for inj_file in curr_exe_job.injection_file]. *)
Fixpoint coh_inj_loop
    (inner : CohFile -> list File -> M Node ExeState (list File))
    (injection_files : list CohFile) (curr_out_files : list File)
    : M Node ExeState (list File) :=
  match injection_files with
  | [] => ret curr_out_files
  | inj_file :: rest =>
      bindM (inner inj_file curr_out_files)
        (fun curr_out_files' => coh_inj_loop inner rest curr_out_files')
  end.

(** [multi_ifo_coherent_job_setup].  [data_seg] and [job_valid_seg] are what
    [curr_exe_job.get_valid_times()] returned, [injection_file] is the
    attribute of the executable, [parents] the list of split banks given by
    the caller.  The model starts after [get_valid_times] has returned and
    takes [parents] as a list: the default [parents=None] cannot be iterated
    and is not covered. *)
Definition multi_ifo_coherent_job_setup (data_seg job_valid_seg : segment)
    (injection_file : option (list CohFile)) (datafind_outs : list CohFile)
    (parents : list CohFile) (slide_dict : option Slide) (tags : list string)
    : M Node ExeState (list File) :=
  bindM (lift (split_datafind_outs datafind_outs))
    (fun found =>
       let '(ipn_sky_points, bank_veto, frame_files) := found in
       bindM
         (match injection_file with
          | None =>
              coh_banks_loop
                (fun split_bank =>
                   coh_emit data_seg job_valid_seg frame_files bank_veto
                     ipn_sky_points slide_dict (tags ++ [coh_tag_str split_bank])
                     None split_bank)
                parents []
          | Some injection_files =>
              coh_inj_loop
                (fun inj_file =>
                   coh_banks_loop
                     (fun split_bank =>
                        coh_emit data_seg job_valid_seg frame_files bank_veto
                          ipn_sky_points None
                          ((tags ++ [coh_tag_str inj_file]) ++ [coh_tag_str split_bank])
                          (Some inj_file) split_bank)
                     parents)
                injection_files []
          end)
         (fun curr_out_files =>
            let curr_out_files :=
              filter (fun i => negb (tag_in "PSD_FILE" (file_tags i))) curr_out_files in
            bindM (extend_out_files curr_out_files)
              (fun _ => fun st => (st, Ok (out_files st))))).

End CoherentDriver.

Arguments coh_emit {Node ExeState Slide} coh_create_node output_files data_seg
  job_valid_seg frame_files bank_veto ipn_sky_points slide tag inj_file split_bank
  curr_out_files _.
Arguments coh_banks_loop {Node ExeState} emit parents curr_out_files _.
Arguments coh_inj_loop {Node ExeState} inner injection_files curr_out_files _.
Arguments multi_ifo_coherent_job_setup {Node ExeState Slide} coh_create_node
  output_files data_seg job_valid_seg injection_file datafind_outs parents
  slide_dict tags _.

(** The calls of [create_node] the coherent setup makes, in order: the
    injection file, the split bank, the slide and the tags of each. *)
Definition coh_calls {Slide : Type} (injection_file : option (list CohFile))
    (parents : list CohFile) (slide_dict : option Slide) (tags : list string)
    : list (option CohFile * CohFile * option Slide * list string) :=
  match injection_file with
  | None =>
      map (fun split_bank =>
             (None, split_bank, slide_dict, tags ++ [coh_tag_str split_bank]))
          parents
  | Some injection_files =>
      flat_map (fun inj_file =>
                  map (fun split_bank =>
                         (Some inj_file, split_bank, None,
                          (tags ++ [coh_tag_str inj_file]) ++ [coh_tag_str split_bank]))
                      parents)
               injection_files
  end.

(** The optional file as a list. *)
Definition opt_list {A : Type} (o : option A) : list A :=
  match o with Some a => [a] | None => [] end.

(** Files of a coherent run: two frame files, a bank veto bank and sky
    points. *)
Definition frame_h1 : CohFile :=
  {| coh_name := "H1-FRAMES.lcf"; coh_description := "DATAFIND"; coh_tag_str := "" |}.

Definition frame_l1 : CohFile :=
  {| coh_name := "L1-FRAMES.lcf"; coh_description := "DATAFIND"; coh_tag_str := "" |}.

Definition veto_bank : CohFile :=
  {| coh_name := "H1L1-bank_veto_bank.xml";
     coh_description := "bank_veto_bank"; coh_tag_str := "" |}.

Definition sky_points : CohFile :=
  {| coh_name := "H1L1-IPN_SKY_POINTS.xml";
     coh_description := "IPN_SKY_POINTS"; coh_tag_str := "" |}.

(** ** The selectors of executable classes *)

Inductive ExeKind : Type :=
| PyCBCTmpltbankExecutable
| PyCBCInspiralExecutable
| PyCBCMultiInspiralExecutable
| LigolwAddExecutable
| LalappsInspinjExecutable
| PycbcCreateInjectionsExecutable
| PycbcConditionStrainExecutable.

(** What a selector does: it returns a class or raises
    [NotImplementedError] with a message. *)
Inductive selection : Type :=
| Selected (c : ExeKind)
| NotImplementedError (msg : string).

(** [d[k]] on a dictionary given by its items. *)
Fixpoint dict_get (d : list (string * ExeKind)) (k : string) : option ExeKind :=
  match d with
  | [] => None
  | (k', c) :: rest => if String.eqb k' k then Some c else dict_get rest k
  end.

Definition no_job_class (exe : string) : selection :=
  NotImplementedError ("No job class exists for executable " ++ exe ++ ", exiting")%string.

Definition select_from (exe_to_class_map : list (string * ExeKind)) (exe : string)
    : selection :=
  match dict_get exe_to_class_map exe with
  | Some c => Selected c
  | None => no_job_class exe
  end.

(** [select_tmpltbank_class]. *)
Definition select_tmpltbank_class (curr_exe : string) : selection :=
  select_from [("pycbc_geom_nonspinbank", PyCBCTmpltbankExecutable);
               ("pycbc_aligned_stoch_bank", PyCBCTmpltbankExecutable)] curr_exe.

(** [select_matchedfilter_class]. *)
Definition select_matchedfilter_class (curr_exe : string) : selection :=
  select_from [("pycbc_inspiral", PyCBCInspiralExecutable);
               ("pycbc_inspiral_skymax", PyCBCInspiralExecutable);
               ("pycbc_multi_inspiral", PyCBCMultiInspiralExecutable)] curr_exe.

(** [os.path.basename]: what follows the last slash. *)
Fixpoint basename (p : string) : string :=
  match p with
  | EmptyString => EmptyString
  | String c rest =>
      if str_in "/" rest then basename rest
      else if Ascii.eqb c "/" then rest
      else p
  end.

(** [select_generic_executable], from the path that
    [workflow.cp.get("executables", exe_tag)] returned. *)
Definition select_generic_executable (exe_path : string) : selection :=
  let exe_name := basename exe_path in
  select_from [("ligolw_add", LigolwAddExecutable);
               ("lalapps_inspinj", LalappsInspinjExecutable);
               ("pycbc_create_injections", PycbcCreateInjectionsExecutable);
               ("pycbc_condition_strain", PycbcConditionStrainExecutable)] exe_name.

(** * Properties *)

(** ** Rounding facts *)

Module RoundFacts.

Local Open Scope Q_scope.

Lemma Qltb_lt (x y : Q) : Qltb x y = true <-> x < y.
Proof.
  unfold Qltb. rewrite Qlt_alt.
  destruct (x ?= y); split; congruence.
Qed.

Lemma Qltb_ge (x y : Q) : Qltb x y = false <-> y <= x.
Proof.
  split; intro H.
  - apply Qnot_lt_le. intro Hlt. apply Qltb_lt in Hlt. congruence.
  - destruct (Qltb x y) eqn:E; [|reflexivity].
    apply Qltb_lt in E. exfalso. exact (Qlt_not_le _ _ E H).
Qed.

Lemma Qfloor_unique (x : Q) (z : Z) :
  inject_Z z <= x -> x < inject_Z (z + 1) -> Qfloor x = z.
Proof.
  intros Hlo Hhi.
  assert (H1 : (z <= Qfloor x)%Z).
  { rewrite <- (Qfloor_Z z) at 1. now apply Qfloor_resp_le. }
  assert (H2 : (Qfloor x < z + 1)%Z).
  { rewrite Zlt_Qlt. eapply Qle_lt_trans; [apply Qfloor_le | exact Hhi]. }
  lia.
Qed.

Lemma Qfloor_add_Z (x : Q) (k : Z) : Qfloor (x + inject_Z k) = (Qfloor x + k)%Z.
Proof.
  apply Qfloor_unique.
  - rewrite inject_Z_plus. apply Qplus_le_l. apply Qfloor_le.
  - replace (Qfloor x + k + 1)%Z with ((Qfloor x + 1) + k)%Z by lia.
    rewrite inject_Z_plus. apply Qplus_lt_l. apply Qlt_floor.
Qed.

Lemma py_int_nonneg (x : Q) : 0 <= x -> py_int x = Qfloor x.
Proof.
  intro H. unfold py_int.
  destruct (Qle_bool 0 x) eqn:E; [reflexivity|].
  apply Qle_bool_iff in H. congruence.
Qed.

Lemma fudge_pos : 0 < fudge.
Proof. reflexivity. Qed.

Lemma fudge_lt_1 : fudge < 1.
Proof. reflexivity. Qed.

(** An integer plus the fudge factor truncates to the integer. *)
Lemma Qfloor_Z_fudge (z : Z) : Qfloor (inject_Z z + fudge) = z.
Proof.
  apply Qfloor_unique.
  - rewrite <- (Qplus_0_r (inject_Z z)) at 1.
    apply Qplus_le_r. discriminate.
  - rewrite inject_Z_plus. apply Qplus_lt_r. reflexivity.
Qed.

(** Ceiling of a quotient of integers, in integer arithmetic. *)
Lemma Qceiling_Zdiv (a b : Z) :
  Qceiling (inject_Z a / inject_Z b) = (- ((- a) / b))%Z.
Proof.
  unfold Qceiling. f_equal.
  rewrite Zdiv_Qdiv. apply Qfloor_comp.
  rewrite inject_Z_opp. unfold Qdiv. ring.
Qed.

Lemma inject_Z_minus (x y : Z) : inject_Z (x - y) = inject_Z x - inject_Z y.
Proof.
  unfold Z.sub, Qminus. now rewrite inject_Z_plus, inject_Z_opp.
Qed.

Lemma inject_Z_pos (z : Z) : (0 < z)%Z -> 0 < inject_Z z.
Proof. intro H. change 0 with (inject_Z 0). now rewrite <- Zlt_Qlt. Qed.



End RoundFacts.
Import RoundFacts.

(** ** Arithmetic of the tiling *)

(** Ceiling division on integers. *)
Lemma ceil_div_bounds (a b : Z) :
  0 < b -> a <= b * (- ((- a) / b)) < a + b.
Proof.
  intro Hb.
  pose proof (Z.div_mod (- a) b ltac:(lia)) as Hdm.
  pose proof (Z.mod_pos_bound (- a) b Hb) as Hmod.
  nia.
Qed.

Section TilingArith.

(** [L] is the length of the science segment, [D] the data length and
    [V] the valid length of the chosen tile. *)
Variables L D V : Z.
Hypothesis V_pos : 0 < V.
Hypothesis loss_nonneg : 0 <= D - V.
Hypothesis long_enough : D <= L.

Let n : Z := jobs_needed L D V.

Lemma count_jobs_ceil : count_jobs (inject_Z L) (D - V) V = Ok n.
Proof.
  unfold count_jobs. destruct (Z.eqb_spec V 0) as [E|_]; [lia|].
  f_equal. rewrite <- inject_Z_minus. apply Qceiling_Zdiv.
Qed.

Lemma jobs_bounds : L - D <= V * (n - 1) < L - D + V.
Proof.
  pose proof (ceil_div_bounds (L - (D - V)) V V_pos) as H.
  unfold n, jobs_needed. lia.
Qed.

Lemma jobs_positive : 1 <= n.
Proof. pose proof jobs_bounds. nia. Qed.

Lemma one_job_iff : n = 1 <-> L = D.
Proof. pose proof jobs_bounds. split; intro; nia. Qed.

(** The shift assigned by [__init__]. *)
Let s : Q := tile_shift L D V.

Lemma compute_shift_ok : compute_shift (inject_Z L) D n = Ok s.
Proof.
  unfold compute_shift, s, tile_shift. fold n.
  destruct (Qeq_bool (inject_Z L) (inject_Z D)) eqn:E.
  - rewrite Qeq_bool_iff, inject_Z_injective in E.
    now rewrite (proj2 (Z.eqb_eq L D) E).
  - destruct (Z.eqb_spec L D) as [->|Hne].
    + exfalso. rewrite (proj2 (Qeq_bool_iff _ _) (Qeq_refl _)) in E. discriminate.
    + assert (n <> 1) by (rewrite one_job_iff; exact Hne).
      destruct (Z.eqb_spec (n - 1) 0) as [E0|_]; [lia|].
      reflexivity.
Qed.

Lemma shift_nonneg : (0 <= s)%Q.
Proof.
  unfold s, tile_shift. fold n.
  destruct (Z.eqb_spec L D) as [_|Hne]; [apply Qle_refl|].
  pose proof jobs_positive. pose proof one_job_iff.
  rewrite <- inject_Z_minus.
  apply Qle_shift_div_l.
  - change 0%Q with (inject_Z 0). rewrite <- Zlt_Qlt. lia.
  - rewrite Qmult_0_l. change 0%Q with (inject_Z 0). rewrite <- Zle_Qle. lia.
Qed.

Lemma shift_times_jobs : (s * inject_Z (n - 1) == inject_Z (L - D))%Q.
Proof.
  unfold s, tile_shift. fold n.
  destruct (Z.eqb_spec L D) as [E|Hne].
  - rewrite E, Z.sub_diag. ring.
  - pose proof jobs_positive. pose proof one_job_iff.
    rewrite <- inject_Z_minus.
    unfold Qdiv. rewrite <- Qmult_assoc, (Qmult_comm (/ _)), Qmult_inv_r.
    + ring.
    + change 0%Q with (inject_Z 0). rewrite inject_Z_injective. lia.
Qed.

Lemma shift_le_valid : (s <= inject_Z V)%Q.
Proof.
  unfold s, tile_shift. fold n.
  destruct (Z.eqb_spec L D) as [_|Hne].
  - change 0%Q with (inject_Z 0). rewrite <- Zle_Qle. lia.
  - pose proof jobs_positive. pose proof one_job_iff. pose proof jobs_bounds.
    rewrite <- inject_Z_minus.
    apply Qle_shift_div_r.
    + change 0%Q with (inject_Z 0). rewrite <- Zlt_Qlt. lia.
    + rewrite <- inject_Z_mult, <- Zle_Qle. lia.
Qed.

(** Offsets of the jobs. *)

Lemma offset_floor (i : Z) :
  0 <= i -> job_offset s i = Qfloor (s * inject_Z i + fudge)%Q.
Proof.
  intro Hi. unfold job_offset. apply py_int_nonneg.
  apply Qle_trans with (0 + 0)%Q; [discriminate|].
  apply Qplus_le_compat; [|discriminate].
  apply Qmult_le_0_compat; [apply shift_nonneg|].
  change 0%Q with (inject_Z 0). rewrite <- Zle_Qle. exact Hi.
Qed.

Lemma offset_first : job_offset s 0 = 0.
Proof.
  rewrite offset_floor by lia.
  transitivity (Qfloor (inject_Z 0 + fudge)%Q); [|apply Qfloor_Z_fudge].
  apply Qfloor_comp. change (inject_Z 0) with 0%Q. ring.
Qed.

Lemma offset_last : job_offset s (n - 1) = L - D.
Proof.
  pose proof jobs_positive.
  rewrite offset_floor by lia.
  transitivity (Qfloor (inject_Z (L - D) + fudge)%Q); [|apply Qfloor_Z_fudge].
  apply Qfloor_comp. now rewrite shift_times_jobs.
Qed.

Lemma offset_mono (i j : Z) :
  0 <= i <= j -> job_offset s i <= job_offset s j.
Proof.
  intros Hij. rewrite !offset_floor by lia.
  apply Qfloor_resp_le. apply Qplus_le_l.
  rewrite !(Qmult_comm s). apply Qmult_le_compat_r; [|apply shift_nonneg].
  rewrite <- Zle_Qle. lia.
Qed.

Lemma offset_step (i : Z) :
  0 <= i -> job_offset s (i + 1) <= job_offset s i + V.
Proof.
  intro Hi. rewrite !offset_floor by lia.
  rewrite <- Qfloor_add_Z. apply Qfloor_resp_le.
  rewrite inject_Z_plus.
  setoid_replace (s * (inject_Z i + inject_Z 1) + fudge)%Q
    with (s * inject_Z i + fudge + s)%Q by ring.
  apply Qplus_le_r. apply shift_le_valid.
Qed.

Lemma offset_range (i : Z) :
  0 <= i < n -> 0 <= job_offset s i <= L - D.
Proof.
  intro Hi. rewrite <- offset_first at 1. rewrite <- offset_last.
  split; apply offset_mono; lia.
Qed.

End TilingArith.

(** ** What the constructor establishes *)

Lemma py_index_Ok {A : Type} (xs : list A) (i : nat) (x : A) :
  py_index xs i = Ok x <-> nth_error xs i = Some x.
Proof.
  unfold py_index. destruct (nth_error xs i); split; congruence.
Qed.

Lemma pick_tile_size_inv (L : Q) dls vcs vls dl vc vl :
  pick_tile_size L dls vcs vls = Ok (dl, vc, vl) ->
  exists p, pick_index L vls = Ok p /\
            nth_error dls p = Some dl /\ nth_error vcs p = Some vc /\
            nth_error vls p = Some vl.
Proof.
  unfold pick_tile_size. intro H.
  destruct (pick_index L vls) as [p|] eqn:Ep; [|discriminate]. simpl in H.
  destruct (py_index dls p) as [dl'|] eqn:E1; [|discriminate]. simpl in H.
  destruct (py_index vcs p) as [vc'|] eqn:E2; [|discriminate]. simpl in H.
  destruct (py_index vls p) as [vl'|] eqn:E3; [|discriminate]. simpl in H.
  injection H as -> -> ->.
  exists p. apply py_index_Ok in E1. apply py_index_Ok in E2.
  apply py_index_Ok in E3. auto.
Qed.

Lemma segment_of_ordered (a b : Z) : a <= b -> segment_of a b = mk_seg a b.
Proof.
  intro H. unfold segment_of. destruct (Z.leb_spec a b); [reflexivity|lia].
Qed.

(** The segmenter of [sngl_ifo_job_setup] that has at least one job. *)
Lemma segmenter_for_tiled (e : ExeClass) (seg : segment) (sg : JobSegmenter) :
  Forall well_formed (exe_valid_chunks e) ->
  segmenter_for e seg = Ok sg ->
  data_length sg <= seg_abs seg \/ num_jobs sg <> 0 ->
  Tiled sg /\ exe_class sg = e /\ curr_seg sg = seg /\
  In (valid_chunk sg) (exe_valid_chunks e).
Proof.
  intros Hwf Hsg Hjobs.
  unfold segmenter_for, identify_needed_data, get_valid_times, JobSegmenter_init in Hsg.
  destruct (pick_tile_size _ _ _ _) as [[[dl vc] vl]|] eqn:Etile; [|discriminate].
  simpl in Hsg.
  apply pick_tile_size_inv in Etile as (p & _ & _ & Hvc & Hvl).
  rewrite nth_error_map, Hvc in Hvl. injection Hvl as <-.
  assert (Hin : In vc (exe_valid_chunks e)) by (eapply nth_error_In; eauto).
  assert (Hvcwf : well_formed vc) by (rewrite Forall_forall in Hwf; auto).
  unfold well_formed in Hvcwf.
  destruct (Z.ltb_spec (dl - seg_abs vc) 0) as [|Hloss]; [discriminate|].
  destruct (Qltb _ _) eqn:Eshort.
  { injection Hsg as <-. simpl in Hjobs.
    apply Qltb_lt in Eshort. rewrite <- Zlt_Qlt in Eshort. lia. }
  apply Qltb_ge in Eshort. rewrite <- Zle_Qle in Eshort.
  unfold count_jobs in Hsg.
  destruct (Z.eqb_spec (seg_abs vc) 0) as [|HV0]; [discriminate|].
  assert (HV : 0 < seg_abs vc) by (unfold seg_abs in *; lia).
  simpl in Hsg.
  pose proof (count_jobs_ceil (seg_abs seg) dl (seg_abs vc) HV) as Hn.
  unfold count_jobs in Hn.
  destruct (Z.eqb_spec (seg_abs vc) 0) as [|_]; [contradiction|].
  injection Hn as Hn. rewrite Hn in Hsg.
  rewrite compute_shift_ok in Hsg by assumption.
  simpl in Hsg. injection Hsg as <-.
  repeat split; simpl; auto; try lia.
  apply segment_of_ordered. lia.
Qed.

(** ** Windows of a tiled segment *)

Lemma in_py_range (n i : Z) : In i (py_range n) <-> 0 <= i < n.
Proof.
  unfold py_range. rewrite in_map_iff. split.
  - intros (k & <- & Hk). apply in_seq in Hk. lia.
  - intros Hi. exists (Z.to_nat i). split; [lia|]. apply in_seq. lia.
Qed.

Lemma py_range_length (n : Z) : List.length (py_range n) = Z.to_nat n.
Proof. unfold py_range. now rewrite length_map, length_seq. Qed.

Lemma py_range_nth (n : Z) (k : nat) :
  (k < Z.to_nat n)%nat -> nth_error (py_range n) k = Some (Z.of_nat k).
Proof.
  intro Hk. unfold py_range. rewrite nth_error_map.
  rewrite (nth_error_nth' _ 0%nat) by (now rewrite length_seq).
  now rewrite seq_nth.
Qed.

Lemma map_result_Ok {A B : Type} (f : A -> result B) (g : A -> B) (xs : list A) :
  (forall x, In x xs -> f x = Ok (g x)) -> map_result f xs = Ok (map g xs).
Proof.
  induction xs as [|x rest IH]; intro H; simpl; [reflexivity|].
  rewrite (H x (or_introl eq_refl)). simpl.
  rewrite IH by (intros y Hy; apply H; now right).
  reflexivity.
Qed.

Section Windows.

Variable sg : JobSegmenter.
Hypothesis tiled : Tiled sg.

Let L := seg_abs (curr_seg sg).
Let D := data_length sg.
Let V := valid_length sg.
Let off := tiled_offset sg.

Lemma tiled_shift_dur (i : Z) :
  shift_dur sg i = Ok (seg_start (curr_seg sg) + off i).
Proof.
  unfold shift_dur, get_job_time_shift. now rewrite (tiled_shift sg tiled).
Qed.

Lemma tiled_valid_times (i : Z) :
  get_valid_times_for_job sg i true = Ok (valid_window sg i).
Proof.
  unfold get_valid_times_for_job. now rewrite tiled_shift_dur.
Qed.

Lemma tiled_num_jobs : 1 <= num_jobs sg.
Proof.
  destruct tiled. rewrite tiled_jobs0. now apply jobs_positive.
Qed.

Lemma tiled_off_first : off 0 = 0.
Proof. destruct tiled. now apply offset_first. Qed.

Lemma tiled_off_last : off (num_jobs sg - 1) = L - D.
Proof.
  destruct tiled. unfold off, tiled_offset. rewrite tiled_jobs0.
  now apply offset_last.
Qed.

Lemma tiled_off_range (i : Z) : 0 <= i < num_jobs sg -> 0 <= off i <= L - D.
Proof.
  destruct tiled. rewrite tiled_jobs0. now apply offset_range.
Qed.

Lemma tiled_off_step (i : Z) : 0 <= i -> off (i + 1) <= off i + V.
Proof. destruct tiled. now apply offset_step. Qed.

Lemma tiled_off_mono (i j : Z) : 0 <= i <= j -> off i <= off j.
Proof. destruct tiled. now apply offset_mono. Qed.

Lemma tiled_data_times (i : Z) :
  0 <= i < num_jobs sg ->
  get_data_times_for_job sg i = Ok (extend_data sg (data_window sg i)).
Proof.
  intro Hi. unfold get_data_times_for_job.
  rewrite tiled_shift_dur, (tiled_chunk sg tiled). cbn [bind].
  change (shift _ _) with (data_window sg i).
  assert (H0 : (if i =? 0
                then if negb (seg_start (data_window sg i) =? seg_start (curr_seg sg))
                     then Raise not_from_start else Ok tt
                else Ok tt) = Ok tt).
  { destruct (Z.eqb_spec i 0) as [->|_]; [|reflexivity].
    unfold data_window. simpl. fold off. rewrite tiled_off_first.
    now rewrite Z.add_0_r, Z.eqb_refl. }
  rewrite H0. cbn [bind].
  assert (H1 : (if i =? num_jobs sg - 1
                then if negb (seg_end (data_window sg i) =? seg_end (curr_seg sg))
                     then Raise not_to_end else Ok tt
                else Ok tt) = Ok tt).
  { destruct (Z.eqb_spec i (num_jobs sg - 1)) as [->|_]; [|reflexivity].
    unfold data_window. simpl. fold off. rewrite tiled_off_last.
    unfold L, D, seg_abs.
    replace (data_length sg + (seg_start (curr_seg sg)
               + (seg_end (curr_seg sg) - seg_start (curr_seg sg) - data_length sg)))
      with (seg_end (curr_seg sg)) by lia.
    now rewrite Z.eqb_refl. }
  rewrite H1. cbn [bind]. unfold extend_data.
  destruct (zero_pad (exe_class sg)); reflexivity.
Qed.

End Windows.

(** ** Choice of the tile size *)

Lemma pick_loop_cons (t : Q) (x : Z) (rest : list Z) (i pick : nat) (diff : Q) :
  pick_loop t (x :: rest) i pick diff =
  if Qltb (tile_distance t x) diff
  then pick_loop t rest (S i) i (tile_distance t x)
  else pick_loop t rest (S i) pick diff.
Proof. reflexivity. Qed.

Lemma pick_loop_spec (t : Q) (rest : list Z) :
  forall (pre : list Z) (pick : nat) (diff : Q) (vp : Z),
    nth_error (pre ++ rest) pick = Some vp ->
    diff = tile_distance t vp ->
    (forall j v, (j < List.length pre)%nat -> nth_error (pre ++ rest) j = Some v ->
                 (diff <= tile_distance t v)%Q) ->
    (forall j v, (j < pick)%nat -> nth_error (pre ++ rest) j = Some v ->
                 (diff < tile_distance t v)%Q) ->
    exists vq,
      nth_error (pre ++ rest) (fst (pick_loop t rest (List.length pre) pick diff))
        = Some vq /\
      (forall j v, nth_error (pre ++ rest) j = Some v ->
                   (tile_distance t vq <= tile_distance t v)%Q) /\
      (forall j v, (j < fst (pick_loop t rest (List.length pre) pick diff))%nat ->
                   nth_error (pre ++ rest) j = Some v ->
                   (tile_distance t vq < tile_distance t v)%Q).
Proof.
  induction rest as [|x rest IH]; intros pre pick diff vp Hp Hd Hall Hbefore.
  - simpl. exists vp. subst diff. split; [exact Hp|]. split; [|exact Hbefore].
    intros j v Hj. apply (Hall j); [|exact Hj].
    rewrite app_nil_r in Hj. apply nth_error_Some. congruence.
  - rewrite pick_loop_cons.
    assert (Hx : nth_error (pre ++ x :: rest) (List.length pre) = Some x).
    { rewrite nth_error_app2 by apply Nat.le_refl.
      now rewrite Nat.sub_diag. }
    assert (Hlen : S (List.length pre) = List.length (pre ++ [x])).
    { rewrite length_app. simpl. lia. }
    assert (Happ : pre ++ x :: rest = (pre ++ [x]) ++ rest).
    { now rewrite <- app_assoc. }
    destruct (Qltb (tile_distance t x) diff) eqn:E.
    + apply Qltb_lt in E. rewrite Hlen, Happ.
      apply IH with (vp := x).
      * now rewrite <- Happ.
      * reflexivity.
      * rewrite <- Happ, <- Hlen. intros j v Hj Hv.
        destruct (Nat.eq_dec j (List.length pre)) as [->|Hne].
        -- rewrite Hx in Hv. injection Hv as <-. apply Qle_refl.
        -- apply Qlt_le_weak. eapply Qlt_le_trans; [exact E|].
           apply (Hall j); [lia|exact Hv].
      * rewrite <- Happ. intros j v Hj Hv.
        eapply Qlt_le_trans; [exact E|]. now apply (Hall j).
    + apply Qltb_ge in E. rewrite Hlen, Happ.
      apply IH with (vp := vp).
      * now rewrite <- Happ.
      * exact Hd.
      * rewrite <- Happ, <- Hlen. intros j v Hj Hv.
        destruct (Nat.eq_dec j (List.length pre)) as [->|Hne].
        -- rewrite Hx in Hv. injection Hv as <-. exact E.
        -- apply (Hall j); [lia|exact Hv].
      * rewrite <- Happ. exact Hbefore.
Qed.

Lemma pick_index_spec (seg_size : Q) (vls : list Z) (p : nat) :
  List.length vls <> 1%nat ->
  pick_index seg_size vls = Ok p ->
  exists vq,
    nth_error vls p = Some vq /\
    (forall j v, nth_error vls j = Some v ->
       (tile_distance (seg_size / 3) vq <= tile_distance (seg_size / 3) v)%Q) /\
    (forall j v, (j < p)%nat -> nth_error vls j = Some v ->
       (tile_distance (seg_size / 3) vq < tile_distance (seg_size / 3) v)%Q).
Proof.
  intros Hlen Hp. unfold pick_index in Hp.
  destruct (Nat.eqb_spec (List.length vls) 1) as [|_]; [contradiction|].
  destruct vls as [|v0 vls']; [discriminate|].
  cbn [py_index nth_error bind] in Hp. injection Hp as <-.
  apply (pick_loop_spec (seg_size / 3)%Q (v0 :: vls') [] 0%nat
           (tile_distance (seg_size / 3)%Q v0) v0 eq_refl eq_refl).
  - intros j v Hj. simpl in Hj. lia.
  - intros j v Hj. lia.
Qed.

Lemma pick_index_total (seg_size : Q) (vls : list Z) :
  vls <> [] ->
  exists p, pick_index seg_size vls = Ok p /\ (p < List.length vls)%nat.
Proof.
  intro Hne.
  destruct (Nat.eq_dec (List.length vls) 1) as [E|Hlen].
  - exists 0%nat. unfold pick_index. rewrite E. split; [reflexivity|lia].
  - destruct (pick_index seg_size vls) as [p|e] eqn:Ep.
    + exists p. split; [reflexivity|].
      destruct (pick_index_spec _ _ _ Hlen Ep) as (vq & Hq & _).
      apply nth_error_Some. congruence.
    + exfalso. unfold pick_index in Ep.
      destruct (Nat.eqb_spec (List.length vls) 1) as [|_]; [contradiction|].
      destruct vls; [contradiction|discriminate].
Qed.

(** C9. Profile selection.  A profile with exactly one entry yields that
    entry.  Otherwise the entry returned by [pick_tile_size] is one whose
    valid length is at a minimal distance from a third of the length of the
    science segment, and every entry before it in the profile is strictly
    farther from that target: ties go to the earliest entry.  A profile
    with at least one entry always yields a choice. *)
Theorem pick_tile_size_closest_to_third :
  (forall seg_size dl dls vc vcs vl,
      pick_tile_size seg_size (dl :: dls) (vc :: vcs) [vl] = Ok (dl, vc, vl)) /\
  (forall seg_size dls vcs vls dl vc vl,
      List.length vls <> 1%nat ->
      pick_tile_size seg_size dls vcs vls = Ok (dl, vc, vl) ->
      exists pick,
        nth_error dls pick = Some dl /\ nth_error vcs pick = Some vc /\
        nth_error vls pick = Some vl /\
        (forall j v, nth_error vls j = Some v ->
           (tile_distance (seg_size / 3) vl <= tile_distance (seg_size / 3) v)%Q) /\
        (forall j v, (j < pick)%nat -> nth_error vls j = Some v ->
           (tile_distance (seg_size / 3) vl < tile_distance (seg_size / 3) v)%Q)) /\
  (forall seg_size dls vcs vls,
      vls <> [] ->
      List.length dls = List.length vls -> List.length vcs = List.length vls ->
      exists tile, pick_tile_size seg_size dls vcs vls = Ok tile).
Proof.
  split; [|split].
  - reflexivity.
  - intros seg_size dls vcs vls dl vc vl Hlen Htile.
    apply pick_tile_size_inv in Htile as (p & Hp & Hdl & Hvc & Hvl).
    destruct (pick_index_spec _ _ _ Hlen Hp) as (vq & Hq & Hmin & Hfirst).
    rewrite Hvl in Hq. injection Hq as <-.
    exists p. repeat split; assumption.
  - intros seg_size dls vcs vls Hne Hd Hc.
    destruct (pick_index_total seg_size vls Hne) as (p & Hp & Hlt).
    unfold pick_tile_size. rewrite Hp. cbn [bind]. unfold py_index.
    destruct (nth_error dls p) eqn:E1;
      [|apply nth_error_None in E1; lia].
    destruct (nth_error vcs p) eqn:E2;
      [|apply nth_error_None in E2; lia].
    destruct (nth_error vls p) eqn:E3;
      [|apply nth_error_None in E3; lia].
    cbn [bind]. eexists. reflexivity.
Qed.

(** ** The data window and its extension *)

Lemma extend_data_grows (sg : JobSegmenter) (w : segment) :
  pads_nonneg (exe_class sg) ->
  seg_start (curr_seg sg) <= seg_start w ->
  seg_end w <= seg_end (curr_seg sg) ->
  seg_start w <= seg_end w ->
  seg_start (curr_seg sg) <= seg_start (extend_data sg w) <= seg_start w /\
  seg_end w <= seg_end (extend_data sg w) <= seg_end (curr_seg sg).
Proof.
  unfold pads_nonneg, extend_data. intros Hpads Hlo Hhi Hw.
  destruct (zero_pad (exe_class sg)) as [[[zp sp] ep]|]; [|lia].
  unfold zero_pad_data_extend. destruct zp; simpl; [|lia].
  rewrite segment_of_ordered by lia. simpl. lia.
Qed.

Section DataWindows.

Variable sg : JobSegmenter.
Hypothesis tiled : Tiled sg.

Lemma data_window_bounds (i : Z) :
  0 <= i < num_jobs sg ->
  seg_start (curr_seg sg) <= seg_start (data_window sg i) /\
  seg_end (data_window sg i) <= seg_end (curr_seg sg) /\
  seg_end (data_window sg i) = seg_start (data_window sg i) + data_length sg.
Proof.
  intro Hi. pose proof (tiled_off_range sg tiled i Hi) as Hoff.
  unfold data_window, seg_abs in *. simpl. lia.
Qed.

Lemma data_window_first : seg_start (data_window sg 0) = seg_start (curr_seg sg).
Proof.
  unfold data_window. simpl. rewrite (tiled_off_first sg tiled). lia.
Qed.

Lemma data_window_last :
  seg_end (data_window sg (num_jobs sg - 1)) = seg_end (curr_seg sg).
Proof.
  unfold data_window. simpl. rewrite (tiled_off_last sg tiled).
  unfold seg_abs. lia.
Qed.

Lemma data_length_nonneg : 0 <= data_length sg.
Proof. destruct tiled. lia. Qed.

End DataWindows.

(** ** Job count and shift *)

Lemma segmenter_for_not_zero_division (e : ExeClass) (seg : segment) :
  Forall well_formed (exe_valid_chunks e) ->
  Forall (fun vc => seg_abs vc <> 0) (exe_valid_chunks e) ->
  segmenter_for e seg <> Raise ZeroDivisionError.
Proof.
  intros Hwf Hnz.
  unfold segmenter_for, identify_needed_data, get_valid_times, JobSegmenter_init.
  destruct (pick_tile_size _ _ _ _) as [[[dl vc] vl]|err] eqn:Etile.
  - cbn [bind].
    apply pick_tile_size_inv in Etile as (p & _ & _ & Hvc & Hvl).
    rewrite nth_error_map, Hvc in Hvl. injection Hvl as <-.
    assert (Hin : In vc (exe_valid_chunks e)) by (eapply nth_error_In; eauto).
    rewrite Forall_forall in Hwf, Hnz.
    pose proof (Hwf vc Hin) as Hvcwf. pose proof (Hnz vc Hin) as Hvcnz.
    unfold well_formed in Hvcwf.
    destruct (Z.ltb_spec (dl - seg_abs vc) 0) as [|Hloss]; [discriminate|].
    destruct (Qltb _ _) eqn:Eshort; [discriminate|].
    apply Qltb_ge in Eshort. rewrite <- Zle_Qle in Eshort.
    assert (HV : 0 < seg_abs vc) by (unfold seg_abs in *; lia).
    rewrite count_jobs_ceil by assumption. cbn [bind].
    rewrite compute_shift_ok by assumption. discriminate.
  - cbn [bind]. unfold pick_tile_size, pick_index, py_index in Etile.
    repeat match type of Etile with
           | context [if ?b then _ else _] => destruct b
           | context [match ?o with Some _ => _ | None => _ end] => destruct o
           | _ => progress cbn [bind] in Etile
           end; congruence.
Qed.

(** C6. The shift computation never divides by zero.  When the constructor
    returns for a science segment at least as long as the data length, the
    job count is one exactly when the segment length equals the data length;
    on the other branch the divisor [num_jobs - 1] is not zero, and
    [compute_shift] returns the shift stored in the segmenter.  With valid
    chunks of nonzero length the constructor never raises a division by
    zero.  A single-entry profile on a segment as long as its data length
    gives one job and a zero shift. *)
Theorem shift_never_divides_by_zero :
  (forall e seg sg,
      Forall well_formed (exe_valid_chunks e) ->
      segmenter_for e seg = Ok sg ->
      data_length sg <= seg_abs seg ->
      (num_jobs sg = 1 <-> seg_abs seg = data_length sg) /\
      (seg_abs seg <> data_length sg -> num_jobs sg - 1 <> 0) /\
      exists s,
        compute_shift (curr_seg_length sg) (data_length sg) (num_jobs sg) = Ok s /\
        job_time_shift sg = Some s /\
        (seg_abs seg = data_length sg -> s = 0%Q)) /\
  (forall e seg,
      Forall well_formed (exe_valid_chunks e) ->
      Forall (fun vc => seg_abs vc <> 0) (exe_valid_chunks e) ->
      segmenter_for e seg <> Raise ZeroDivisionError) /\
  (forall dl vc zp seg,
      0 < seg_abs vc -> seg_abs vc <= dl -> seg_abs seg = dl ->
      exists sg,
        segmenter_for {| exe_data_lengths := [dl]; exe_valid_chunks := [vc];
                         zero_pad := zp |} seg = Ok sg /\
        num_jobs sg = 1 /\ job_time_shift sg = Some 0%Q).
Proof.
  split; [|split].
  - intros e seg sg Hwf Hsg Hlong.
    destruct (segmenter_for_tiled e seg sg Hwf Hsg (or_introl Hlong))
      as (HT & _ & HS & _).
    destruct HT. rewrite HS in *.
    rewrite tiled_jobs0, tiled_length0, tiled_shift0.
    split; [now apply one_job_iff|]. split.
    + intro Hne. rewrite <- one_job_iff in Hne by eassumption. lia.
    + eexists. split; [now apply compute_shift_ok|]. split; [reflexivity|].
      intros ->. unfold tile_shift. now rewrite Z.eqb_refl.
  - exact segmenter_for_not_zero_division.
  - intros dl vc zp seg HV Hloss HS.
    unfold segmenter_for, identify_needed_data, get_valid_times, JobSegmenter_init.
    cbn [exe_data_lengths exe_valid_chunks map pick_tile_size pick_index
         List.length Nat.eqb py_index nth_error bind].
    destruct (Z.ltb_spec (dl - seg_abs vc) 0) as [|_]; [lia|].
    rewrite HS.
    assert (Hshort : Qltb (inject_Z dl) (inject_Z dl) = false).
    { apply Qltb_ge. apply Qle_refl. }
    rewrite Hshort.
    rewrite count_jobs_ceil by lia. cbn [bind].
    rewrite compute_shift_ok by lia. cbn [bind].
    eexists. split; [reflexivity|]. cbn [num_jobs job_time_shift]. split.
    + apply one_job_iff; lia.
    + unfold tile_shift. now rewrite Z.eqb_refl.
Qed.

(** C2. For a science segment at least as long as the chosen data length,
    the job count is the ceiling of (segment length - data loss) / valid
    length, the shift equals (segment length - data length) / (num_jobs - 1)
    (zero when there is one job), and the start offset of job [i] is the
    floor of shift * i + 0.0001.  With data length 2048, valid chunk
    [72, 1976] and the segment [0, 6000] there are 4 jobs, the shift is
    3952/3, job 0 reads [0, 2048] and is valid over [72, 1976], and the data
    window of job 3 ends at 6000. *)
Theorem job_count_and_offsets :
  (forall e seg sg,
      Forall well_formed (exe_valid_chunks e) ->
      segmenter_for e seg = Ok sg ->
      data_length sg <= seg_abs seg ->
      num_jobs sg =
        Qceiling ((inject_Z (seg_abs seg) - inject_Z (data_loss sg))
                  / inject_Z (valid_length sg)) /\
      exists shift,
        job_time_shift sg = Some shift /\
        (shift == (inject_Z (seg_abs seg) - inject_Z (data_length sg))
                  / inject_Z (num_jobs sg - 1))%Q /\
        forall i, 0 <= i < num_jobs sg ->
          shift_dur sg i =
            Ok (seg_start seg + Qfloor (shift * inject_Z i + (1 # 10000))%Q)) /\
  (exists sg,
      segmenter_for {| exe_data_lengths := [2048];
                       exe_valid_chunks := [mk_seg 72 1976];
                       zero_pad := None |} (mk_seg 0 6000) = Ok sg /\
      num_jobs sg = 4 /\
      (exists shift, job_time_shift sg = Some shift /\ (shift == 3952 # 3)%Q) /\
      get_data_times_for_job sg 0 = Ok (mk_seg 0 2048) /\
      get_valid_times_for_job sg 0 true = Ok (mk_seg 72 1976) /\
      (exists d3, get_data_times_for_job sg 3 = Ok d3 /\ seg_end d3 = 6000)).
Proof.
  split.
  - intros e seg sg Hwf Hsg Hlong.
    destruct (segmenter_for_tiled e seg sg Hwf Hsg (or_introl Hlong))
      as (HT & _ & HS & _).
    pose proof (tiled_shift_dur sg HT) as Hdur.
    pose proof (tiled_num_jobs sg HT) as Hn.
    destruct HT. rewrite HS in *. split.
    + rewrite tiled_loss0.
      pose proof (count_jobs_ceil (seg_abs seg) (data_length sg) (valid_length sg)
                    tiled_valid_pos0) as Hc.
      unfold count_jobs in Hc.
      destruct (Z.eqb_spec (valid_length sg) 0); [lia|].
      injection Hc as ->. exact tiled_jobs0.
    + eexists. split; [exact tiled_shift0|]. split.
      * unfold tile_shift. rewrite <- tiled_jobs0.
        destruct (Z.eqb_spec (seg_abs seg) (data_length sg)) as [->|_];
          [|reflexivity].
        unfold Qdiv. ring.
      * intros i Hi. rewrite Hdur. f_equal. f_equal.
        unfold tiled_offset. rewrite HS.
        apply offset_floor; try assumption. lia.
  - eexists. split; [reflexivity|].
    split; [reflexivity|]. split; [eexists; split; reflexivity|].
    split; [reflexivity|]. split; [reflexivity|].
    eexists. split; reflexivity.
Qed.

(** ** Boundary check *)

(** C3. In a tiled science segment with at least one job, the data window
    of job 0 starts at the start of the segment and that of the last job
    ends at its end, so [get_data_times_for_job] returns for every job
    index: the sanity check does not raise.  With nonnegative paddings the
    returned (possibly extended) windows are flush with the segment too.
    For any segmenter, a first window that does not start at the segment
    start, or a last window that does not end at the segment end, makes
    [get_data_times_for_job] raise instead of returning a window. *)
Theorem boundary_check_holds :
  (forall e seg sg,
      Forall well_formed (exe_valid_chunks e) ->
      segmenter_for e seg = Ok sg ->
      1 <= num_jobs sg ->
      seg_start (data_window sg 0) = seg_start seg /\
      seg_end (data_window sg (num_jobs sg - 1)) = seg_end seg /\
      (forall i, 0 <= i < num_jobs sg ->
         get_data_times_for_job sg i = Ok (extend_data sg (data_window sg i))) /\
      (pads_nonneg e ->
       seg_start (extend_data sg (data_window sg 0)) = seg_start seg /\
       seg_end (extend_data sg (data_window sg (num_jobs sg - 1))) = seg_end seg)) /\
  (forall sg i sd,
      shift_dur sg i = Ok sd ->
      (i = 0 ->
       seg_start (shift (data_chunk sg) sd) <> seg_start (curr_seg sg) ->
       get_data_times_for_job sg i = Raise not_from_start) /\
      (i = num_jobs sg - 1 ->
       seg_end (shift (data_chunk sg) sd) <> seg_end (curr_seg sg) ->
       exists e, get_data_times_for_job sg i = Raise e)).
Proof.
  split.
  - intros e seg sg Hwf Hsg Hjobs.
    assert (Hnz : num_jobs sg <> 0) by lia.
    destruct (segmenter_for_tiled e seg sg Hwf Hsg (or_intror Hnz))
      as (HT & He & HS & _).
    pose proof (data_window_first sg HT) as Hfirst.
    pose proof (data_window_last sg HT) as Hlast.
    rewrite HS in Hfirst, Hlast.
    split; [exact Hfirst|]. split; [exact Hlast|].
    split; [apply tiled_data_times; exact HT|].
    intro Hpads. rewrite <- He in Hpads.
    pose proof (tiled_num_jobs sg HT) as Hn.
    pose proof (data_length_nonneg sg HT) as HD.
    destruct (data_window_bounds sg HT 0 ltac:(lia)) as (Ha & Hb & Hc).
    destruct (data_window_bounds sg HT (num_jobs sg - 1) ltac:(lia))
      as (Ha' & Hb' & Hc').
    pose proof (extend_data_grows sg (data_window sg 0) Hpads Ha Hb ltac:(lia)).
    pose proof (extend_data_grows sg (data_window sg (num_jobs sg - 1))
                  Hpads Ha' Hb' ltac:(lia)).
    rewrite HS in *. lia.
  - intros sg i sd Hsd. unfold get_data_times_for_job. rewrite Hsd. cbn [bind].
    split.
    + intros -> Hne. rewrite Z.eqb_refl.
      destruct (Z.eqb_spec (seg_start (shift (data_chunk sg) sd))
                           (seg_start (curr_seg sg))); [contradiction|].
      reflexivity.
    + intros Hi Hne.
      destruct (if i =? 0 then _ else _) as [[]|e0]; cbn [bind];
        [|eexists; reflexivity].
      rewrite <- Hi, Z.eqb_refl.
      destruct (Z.eqb_spec (seg_end (shift (data_chunk sg) sd))
                           (seg_end (curr_seg sg))); [contradiction|].
      eexists. reflexivity.
Qed.

(** ** Valid window inside the data window *)

(** C5. Both methods shift by the same amount: whenever they return for a
    job index, the valid window is the valid chunk and the data window is
    the (possibly extended) data chunk, both moved by the start of the
    segment plus [int(job_time_shift * num_job + 0.0001)].  In a tiled
    segment whose valid chunk lies within [0, data_length], and with
    nonnegative paddings, the valid window of every job lies within the
    data window of the same job. *)
Theorem valid_window_within_data_window :
  (forall sg i v d,
      get_valid_times_for_job sg i true = Ok v ->
      get_data_times_for_job sg i = Ok d ->
      exists s,
        job_time_shift sg = Some s /\
        let sd := seg_start (curr_seg sg)
                  + py_int (s * inject_Z i + (1 # 10000))%Q in
        v = shift (valid_chunk sg) sd /\
        d = extend_data sg (shift (data_chunk sg) sd)) /\
  (forall e seg sg i,
      Forall well_formed (exe_valid_chunks e) ->
      segmenter_for e seg = Ok sg ->
      pads_nonneg e ->
      0 <= seg_start (valid_chunk sg) ->
      seg_end (valid_chunk sg) <= data_length sg ->
      0 <= i < num_jobs sg ->
      exists v d,
        get_valid_times_for_job sg i true = Ok v /\
        get_data_times_for_job sg i = Ok d /\
        contains_seg d v = true).
Proof.
  split.
  - intros sg i v d Hv Hd.
    unfold get_valid_times_for_job, get_data_times_for_job, shift_dur,
      get_job_time_shift in Hv, Hd.
    destruct (job_time_shift sg) as [s|]; [|discriminate].
    exists s. split; [reflexivity|]. cbn [bind negb] in Hv, Hd.
    injection Hv as <-. split; [reflexivity|].
    fold fudge. fold (job_offset s i).
    destruct (if i =? 0 then _ else _) as [[]|]; [|discriminate].
    cbn [bind] in Hd.
    destruct (if i =? num_jobs sg - 1 then _ else _) as [[]|]; [|discriminate].
    cbn [bind] in Hd. unfold extend_data.
    destruct (zero_pad (exe_class sg)); now injection Hd as <-.
  - intros e seg sg i Hwf Hsg Hpads Hlo Hhi Hi.
    assert (Hnz : num_jobs sg <> 0) by lia.
    destruct (segmenter_for_tiled e seg sg Hwf Hsg (or_intror Hnz))
      as (HT & He & HS & _).
    exists (valid_window sg i), (extend_data sg (data_window sg i)).
    split; [now apply tiled_valid_times|].
    split; [now apply tiled_data_times|].
    rewrite <- He in Hpads.
    pose proof (data_length_nonneg sg HT) as HD.
    destruct (data_window_bounds sg HT i Hi) as (Ha & Hb & Hc).
    pose proof (extend_data_grows sg (data_window sg i) Hpads Ha Hb ltac:(lia))
      as Hext.
    unfold contains_seg. apply andb_true_iff. rewrite !Z.leb_le.
    assert (Hvs : seg_start (valid_window sg i)
                  = seg_start (data_window sg i) + seg_start (valid_chunk sg)).
    { unfold valid_window, data_window. simpl. lia. }
    assert (Hve : seg_end (valid_window sg i)
                  = seg_start (data_window sg i) + seg_end (valid_chunk sg)).
    { unfold valid_window, data_window. simpl. lia. }
    lia.
Qed.

(** ** Coverage by the valid windows *)

Section Coverage.

Variable sg : JobSegmenter.
Hypothesis tiled : Tiled sg.

Lemma tiled_valid_windows :
  job_valid_windows sg true = Ok (map (valid_window sg) (py_range (num_jobs sg))).
Proof.
  unfold job_valid_windows. apply map_result_Ok.
  intros i _. now apply tiled_valid_times.
Qed.

Lemma valid_window_ends (i : Z) :
  seg_start (valid_window sg i)
    = seg_start (curr_seg sg) + seg_start (valid_chunk sg) + tiled_offset sg i /\
  seg_end (valid_window sg i)
    = seg_start (curr_seg sg) + seg_end (valid_chunk sg) + tiled_offset sg i.
Proof. unfold valid_window. simpl. lia. Qed.

(** Consecutive valid windows touch or overlap. *)
Lemma valid_windows_chain (i : Z) :
  0 <= i -> seg_start (valid_window sg (i + 1)) <= seg_end (valid_window sg i).
Proof.
  intro Hi. pose proof (tiled_off_step sg tiled i Hi) as Hstep.
  destruct (valid_window_ends i) as [_ ->].
  destruct (valid_window_ends (i + 1)) as [-> _].
  rewrite (tiled_valid_length sg tiled) in Hstep. unfold seg_abs in Hstep. lia.
Qed.

Lemma valid_windows_reach (k : nat) (t : Z) :
  seg_start (valid_window sg 0) <= t <= seg_end (valid_window sg (Z.of_nat k)) ->
  exists i, 0 <= i <= Z.of_nat k /\ contains (valid_window sg i) t = true.
Proof.
  induction k as [|k IH]; intro Ht.
  - exists 0. split; [lia|]. unfold contains.
    apply andb_true_iff. rewrite !Z.leb_le. simpl Z.of_nat in Ht. lia.
  - destruct (Z_le_gt_dec t (seg_end (valid_window sg (Z.of_nat k)))) as [Hle|Hgt].
    + destruct IH as (i & Hi & Hc); [lia|]. exists i. split; [lia|exact Hc].
    + exists (Z.of_nat (S k)). split; [lia|]. unfold contains.
      apply andb_true_iff. rewrite !Z.leb_le.
      pose proof (valid_windows_chain (Z.of_nat k) ltac:(lia)) as Hchain.
      replace (Z.of_nat (S k)) with (Z.of_nat k + 1) in * by lia. lia.
Qed.

Lemma covered_valid_windows (t : Z) :
  covered (map (valid_window sg) (py_range (num_jobs sg))) t = true <->
  seg_start (curr_seg sg) + seg_start (valid_chunk sg) <= t
    <= seg_end (curr_seg sg) - (data_length sg - seg_end (valid_chunk sg)).
Proof.
  pose proof (tiled_num_jobs sg tiled) as Hn.
  pose proof (tiled_off_first sg tiled) as Hfirst.
  pose proof (tiled_off_last sg tiled) as Hlast.
  unfold seg_abs in Hlast.
  unfold covered. rewrite existsb_exists. split.
  - intros (w & Hin & Hc). apply in_map_iff in Hin as (i & <- & Hi).
    apply in_py_range in Hi.
    pose proof (tiled_off_range sg tiled i Hi) as Hoff. unfold seg_abs in Hoff.
    unfold contains in Hc. apply andb_true_iff in Hc. rewrite !Z.leb_le in Hc.
    destruct (valid_window_ends i) as [Hs He]. lia.
  - intro Ht.
    destruct (valid_windows_reach (Z.to_nat (num_jobs sg - 1)) t) as (i & Hi & Hc).
    + rewrite Z2Nat.id by lia.
      destruct (valid_window_ends 0) as [-> _].
      destruct (valid_window_ends (num_jobs sg - 1)) as [_ ->]. lia.
    + exists (valid_window sg i). split; [|exact Hc].
      apply in_map. apply in_py_range. lia.
Qed.

End Coverage.

(** C1 at the tiling of [0, 6000] with data length 2048 and valid chunk
    [72, 1976]: the four valid windows do not cover the science segment. *)
Lemma valid_windows_do_not_cover_segment :
  segmenter_for scenario_exe scenario_seg = Ok scenario_segmenter /\
  job_valid_windows scenario_segmenter true
    = Ok [mk_seg 72 1976; mk_seg 1389 3293; mk_seg 2706 4610; mk_seg 4024 5928] /\
  ~ (forall t,
       covered [mk_seg 72 1976; mk_seg 1389 3293; mk_seg 2706 4610; mk_seg 4024 5928] t
         = true
       <-> seg_start scenario_seg <= t <= seg_end scenario_seg).
Proof.
  split; [reflexivity|]. split; [reflexivity|].
  intro H. specialize (H 0). simpl in H.
  assert (Hf : false = true) by (apply H; lia). discriminate.
Qed.

(** C1, amended.  With overlap allowed, the valid windows of the jobs of a
    science segment at least as long as the chosen data length cover
    exactly the span from the start of the segment plus the start of the
    valid chunk to the end of the segment minus the part of the data length
    after the valid chunk; consecutive windows touch or overlap, so there is
    no gap; and when the valid chunk lies within [0, data_length] every
    valid window lies within the science segment. *)
Theorem valid_windows_cover_valid_span :
  forall e seg sg,
    Forall well_formed (exe_valid_chunks e) ->
    segmenter_for e seg = Ok sg ->
    data_length sg <= seg_abs seg ->
    exists ws,
      job_valid_windows sg true = Ok ws /\
      List.length ws = Z.to_nat (num_jobs sg) /\
      (forall t, covered ws t = true <->
                 seg_start seg + seg_start (valid_chunk sg) <= t
                   <= seg_end seg - (data_length sg - seg_end (valid_chunk sg))) /\
      (forall k w w', nth_error ws k = Some w -> nth_error ws (S k) = Some w' ->
                      seg_start w' <= seg_end w) /\
      (0 <= seg_start (valid_chunk sg) ->
       seg_end (valid_chunk sg) <= data_length sg ->
       forall w, In w ws -> contains_seg seg w = true).
Proof.
  intros e seg sg Hwf Hsg Hlong.
  destruct (segmenter_for_tiled e seg sg Hwf Hsg (or_introl Hlong))
    as (HT & _ & HS & _).
  exists (map (valid_window sg) (py_range (num_jobs sg))).
  split; [now apply tiled_valid_windows|].
  split; [now rewrite length_map, py_range_length|].
  split; [rewrite <- HS; now apply covered_valid_windows|]. split.
  - intros k w w' Hw Hw'.
    assert (Hk : (S k < Z.to_nat (num_jobs sg))%nat).
    { rewrite <- py_range_length, <- (length_map (valid_window sg)).
      apply nth_error_Some. congruence. }
    rewrite nth_error_map, py_range_nth in Hw, Hw' by lia.
    rewrite Nat2Z.inj_succ in Hw'. unfold Z.succ in Hw'.
    cbn [option_map] in Hw, Hw'. injection Hw as <-. injection Hw' as <-.
    apply valid_windows_chain; [exact HT|lia].
  - intros Hlo Hhi w Hin. apply in_map_iff in Hin as (i & <- & Hi).
    apply in_py_range in Hi.
    pose proof (tiled_off_range sg HT i Hi) as Hoff. unfold seg_abs in Hoff.
    destruct (valid_window_ends sg i) as [Hs He]. rewrite HS in *.
    unfold contains_seg. apply andb_true_iff. rewrite !Z.leb_le. lia.
Qed.

(** ** Valid windows without overlap *)

(** C4 at the tiling of [0, 400019999] with data length 20002 and valid
    chunk [0, 20002], without overlap allowed: the segment gets 20000 jobs,
    the valid window of job 0 is [0, 20001] and that of job 1 is
    [20000, 40002]; the two intersect. *)
Theorem no_overlap_windows_intersect :
  exists sg,
    segmenter_for many_jobs_exe many_jobs_seg = Ok sg /\
    num_jobs sg = 20000 /\
    get_valid_times_for_job sg 0 false = Ok (mk_seg 0 20001) /\
    get_valid_times_for_job sg 1 false = Ok (mk_seg 20000 40002) /\
    intersects (mk_seg 0 20001) (mk_seg 20000 40002) = true.
Proof.
  eexists.
  split; [vm_compute; reflexivity|].
  split; [reflexivity|].
  split; [vm_compute; reflexivity|].
  split; [vm_compute; reflexivity|].
  reflexivity.
Qed.

(** Below 10000 jobs, and with times that are not negative, the windows
    computed without overlap are the slices between consecutive boundaries
    of the even division: they abut and do not intersect. *)

Lemma py_int_comp (x y : Q) : (x == y)%Q -> py_int x = py_int y.
Proof.
  intro H. unfold py_int.
  assert (Hb : Qle_bool 0 x = Qle_bool 0 y).
  { destruct (Qle_bool 0 x) eqn:Ex, (Qle_bool 0 y) eqn:Ey; try reflexivity.
    - apply Qle_bool_iff in Ex. rewrite H in Ex. apply Qle_bool_iff in Ex. congruence.
    - apply Qle_bool_iff in Ey. rewrite <- H in Ey. apply Qle_bool_iff in Ey. congruence. }
  rewrite Hb. destruct (Qle_bool 0 y); [now apply Qfloor_comp | now apply Qceiling_comp].
Qed.

Lemma Qdiv_nonneg (p n : Z) : 0 <= p -> 0 < n -> (0 <= inject_Z p / inject_Z n)%Q.
Proof.
  intros Hp Hn. apply Qle_shift_div_l; [now apply inject_Z_pos|].
  rewrite Qmult_0_l. change 0%Q with (inject_Z 0). now rewrite <- Zle_Qle.
Qed.

Section NoOverlap.

Variable sg : JobSegmenter.
Hypothesis tiled : Tiled sg.
Hypothesis few_jobs : num_jobs sg < 10000.
Hypothesis nonneg_times : 0 <= seg_start (valid_chunk sg) + seg_start (curr_seg sg).

Local Abbreviation span := (seg_abs (curr_seg sg) - data_loss sg).
Local Abbreviation origin := (seg_start (valid_chunk sg) + seg_start (curr_seg sg)).









End NoOverlap.


(** ** Dependency resolution and emission of nodes *)

Section DriverFacts.

Variable Node : Type.
Variable ExeState : Type.
Variable exe_tags_of : ExeState -> list string.
Variable update_current_tags : list string -> ExeState -> ExeState.
Variable create_node :
  ExeState -> segment -> segment -> option File -> option (list File) -> result Node.
Variable output_files : Node -> list File.

Section AnyResolver.

Variable find_outputs_in_range : list File -> string -> segment -> list File.
Variable find_all_output_in_range : list File -> string -> segment -> list File.

Local Abbreviation resolve :=
  (resolve_job_inputs find_outputs_in_range find_all_output_in_range).
Local Abbreviation job :=
  (setup_job update_current_tags create_node output_files
     find_outputs_in_range find_all_output_in_range).
Local Abbreviation emit := (emit_node update_current_tags create_node output_files).

(** The shape of what step (5) returns. *)
Lemma resolve_job_inputs_Ok ifo parents dfs v d cp cdf :
  resolve ifo parents dfs v d = Ok (cp, cdf) ->
  cp = (if truthy_opt parents
        then map Some (find_outputs_in_range (files_of parents) ifo v)
        else [None]) /\
  (truthy_opt parents = true ->
   find_outputs_in_range (files_of parents) ifo v <> []) /\
  cdf = (if truthy dfs then Some (find_all_output_in_range dfs ifo d) else None) /\
  (truthy dfs = true -> find_all_output_in_range dfs ifo d <> []).
Proof.
  unfold resolve_job_inputs. intro H.
  destruct (truthy_opt parents).
  - destruct (find_outputs_in_range (files_of parents) ifo v) as [|p ps] eqn:Ep;
      [discriminate|].
    cbn [truthy negb bind] in H.
    destruct (truthy dfs).
    + destruct (find_all_output_in_range dfs ifo d) as [|f fs] eqn:Ef;
        [discriminate|].
      cbn [truthy negb bind] in H. injection H as <- <-.
      repeat split; congruence.
    + cbn [bind] in H. injection H as <- <-. repeat split; congruence.
  - cbn [bind] in H.
    destruct (truthy dfs).
    + destruct (find_all_output_in_range dfs ifo d) as [|f fs] eqn:Ef;
        [discriminate|].
      cbn [truthy negb bind] in H. injection H as <- <-.
      repeat split; congruence.
    + cbn [bind] in H. injection H as <- <-. repeat split; congruence.
Qed.

(** The loop over the parents adds one node per parent. *)
Lemma for_each_emit exe_tags cp d v cdf :
  (List.length cp <> 1%nat -> Forall (fun p => p <> None) cp) ->
  forall todo st,
    incl todo cp ->
    (forall es p, In p todo -> exists node, create_node es d v p cdf = Ok node) ->
    exists nodes st',
      for_each todo (emit exe_tags cp d v cdf) st = (st', Ok tt) /\
      wf_nodes st' = wf_nodes st ++ nodes /\
      Forall2 (fun p node => exists es, create_node es d v p cdf = Ok node)
              todo nodes.
Proof.
  intros Hcp todo. induction todo as [|p rest IH]; intros st Hincl Hcreate.
  - exists [], st. cbn. rewrite app_nil_r. repeat split. constructor.
  - assert (Hp : In p cp) by (apply Hincl; now left).
    assert (Htags : exists st1,
               (if negb (List.length cp =? 1)%nat
                then match p with
                     | Some p0 =>
                         set_current_tags update_current_tags (bank_tag p0 ++ exe_tags)
                     | None => raise AttributeError
                     end
                else ret tt) st = (st1, Ok tt) /\ wf_nodes st1 = wf_nodes st).
    { destruct (Nat.eqb_spec (List.length cp) 1) as [E|Hne]; cbn [negb].
      - exists st. split; reflexivity.
      - specialize (Hcp Hne). rewrite Forall_forall in Hcp.
        specialize (Hcp p Hp). destruct p as [p0|]; [|contradiction].
        eexists. split; reflexivity. }
    destruct Htags as (st1 & Htags & Hnodes1).
    destruct (Hcreate (exe_state st1) p (or_introl eq_refl)) as (node & Hnode).
    set (st2 := {| wf_nodes := wf_nodes st1 ++ [node];
                   exe_state := exe_state st1;
                   out_files := out_files st1 ++
                     filter (fun i => negb (tag_in "PSD_FILE" (file_tags i)))
                            (output_files node) |}).
    destruct (IH st2) as (nodes & st' & Hrest & Hwf & Hall).
    { intros q Hq. apply Hincl. now right. }
    { intros es q Hq. apply Hcreate. now right. }
    exists (node :: nodes), st'. split; [|split].
    + cbn [for_each]. unfold bindM at 1. unfold emit_node at 1.
      unfold bindM at 1. rewrite Htags.
      unfold bindM at 1. unfold call_create_node. rewrite Hnode.
      unfold bindM at 1. cbn [add_node]. unfold extend_out_files.
      cbn [wf_nodes exe_state out_files]. exact Hrest.
    + rewrite Hwf. subst st2. cbn [wf_nodes]. rewrite Hnodes1.
      now rewrite <- app_assoc.
    + constructor; [|exact Hall]. exists (exe_state st1). exact Hnode.
Qed.

(** C8. When the parents and data inputs of a job resolve and
    [create_node] returns for them, [setup_job] adds to the workflow
    exactly one node per resolved parent, in order, each created with
    the same data window, the same valid window and the same data
    inputs.  With [N >= 1] resolved parents that is [N] nodes; when no
    parent list is supplied it is a single node without parent. *)
Theorem one_node_per_resolved_parent :
  forall ifo parents dfs allow exe_tags sg i st v d cp cdf,
    get_valid_times_for_job sg i allow = Ok v ->
    get_data_times_for_job sg i = Ok d ->
    resolve ifo parents dfs v d = Ok (cp, cdf) ->
    (forall es p, In p cp -> exists node, create_node es d v p cdf = Ok node) ->
    exists nodes st',
      job ifo parents dfs allow exe_tags sg i st = (st', Ok tt) /\
      wf_nodes st' = wf_nodes st ++ nodes /\
      Forall2 (fun p node => exists es, create_node es d v p cdf = Ok node)
              cp nodes /\
      (truthy_opt parents = true ->
       cp = map Some (find_outputs_in_range (files_of parents) ifo v) /\
       List.length nodes
         = List.length (find_outputs_in_range (files_of parents) ifo v) /\
       (1 <= List.length nodes)%nat) /\
      (truthy_opt parents = false ->
       cp = [None] /\ List.length nodes = 1%nat).
Proof.
  intros ifo parents dfs allow exe_tags sg i st v d cp cdf Hv Hd Hres Hcreate.
  destruct (resolve_job_inputs_Ok _ _ _ _ _ _ _ Hres) as (Hcp & Hfound & _ & _).
  assert (Hshape : List.length cp <> 1%nat -> Forall (fun p => p <> None) cp).
  { intros Hlen. rewrite Hcp in *. destruct (truthy_opt parents).
    - apply Forall_forall. intros p Hp.
      apply in_map_iff in Hp as (f & <- & _). discriminate.
    - contradiction Hlen. reflexivity. }
  destruct (for_each_emit exe_tags cp d v cdf Hshape cp st (incl_refl cp) Hcreate)
    as (nodes & st' & Hrun & Hwf & Hall).
  exists nodes, st'. split; [|split; [exact Hwf|split; [exact Hall|]]].
  - unfold setup_job, bindM, lift. rewrite Hv, Hd, Hres. exact Hrun.
  - pose proof (Forall2_length Hall) as Hlen. split.
    + intro Ht. rewrite Ht in Hcp. split; [exact Hcp|].
      rewrite <- Hlen, Hcp, length_map. split; [reflexivity|].
      specialize (Hfound Ht).
      destruct (find_outputs_in_range (files_of parents) ifo v);
        [contradiction|simpl; lia].
    + intro Hf. rewrite Hf in Hcp. split; [exact Hcp|].
      rewrite <- Hlen, Hcp. reflexivity.
Qed.

(** C10. A science segment shorter than the chosen data length, for a
    tile whose data loss is not negative, gives a segmenter with
    [num_jobs = 0] and no job windows, without an exception; the driver
    then leaves the workflow as it was and returns [out_files].  A segment
    of length 1000 with data length 2048 is such a case. *)
Theorem short_segment_yields_no_jobs :
  (forall dls vcs vls seg e dl vc vl,
      pick_tile_size (inject_Z (seg_abs seg)) dls vcs vls = Ok (dl, vc, vl) ->
      0 <= dl - seg_abs vc ->
      seg_abs seg < dl ->
      exists sg,
        JobSegmenter_init dls vcs vls seg e = Ok sg /\
        num_jobs sg = 0 /\
        forall allow,
          job_valid_windows sg allow = Ok [] /\ job_data_windows sg = Ok []) /\
  (forall ifo e seg parents dfs allow st dl vc vl,
      pick_tile_size (inject_Z (seg_abs seg)) (exe_data_lengths e)
        (exe_valid_chunks e) (map seg_abs (exe_valid_chunks e)) = Ok (dl, vc, vl) ->
      0 <= dl - seg_abs vc ->
      seg_abs seg < dl ->
      sngl_ifo_job_setup exe_tags_of update_current_tags create_node output_files
        find_outputs_in_range find_all_output_in_range
        ifo e [seg] dfs parents allow st = (st, Ok (out_files st))) /\
  (exists sg,
      segmenter_for {| exe_data_lengths := [2048];
                       exe_valid_chunks := [mk_seg 72 1976];
                       zero_pad := None |} (mk_seg 0 1000) = Ok sg /\
      num_jobs sg = 0 /\ job_valid_windows sg true = Ok []).
Proof.
  assert (Hinit : forall dls vcs vls seg e dl vc vl,
             pick_tile_size (inject_Z (seg_abs seg)) dls vcs vls = Ok (dl, vc, vl) ->
             0 <= dl - seg_abs vc ->
             seg_abs seg < dl ->
             exists sg, JobSegmenter_init dls vcs vls seg e = Ok sg /\
                        num_jobs sg = 0).
  { intros dls vcs vls seg e dl vc vl Htile Hloss Hshort.
    unfold JobSegmenter_init. rewrite Htile. cbn [bind].
    destruct (Z.ltb_spec (dl - seg_abs vc) 0) as [|_]; [lia|].
    assert (Hlt : Qltb (inject_Z (seg_abs seg)) (inject_Z dl) = true).
    { apply Qltb_lt. rewrite <- Zlt_Qlt. exact Hshort. }
    rewrite Hlt. eexists. split; reflexivity. }
  split; [|split].
  - intros dls vcs vls seg e dl vc vl Htile Hloss Hshort.
    destruct (Hinit dls vcs vls seg e dl vc vl Htile Hloss Hshort) as (sg & Hsg & Hn).
    exists sg. split; [exact Hsg|]. split; [exact Hn|].
    intro allow. unfold job_valid_windows, job_data_windows. rewrite Hn.
    split; reflexivity.
  - intros ifo e seg parents dfs allow st dl vc vl Htile Hloss Hshort.
    destruct (Hinit _ _ _ seg e dl vc vl Htile Hloss Hshort) as (sg & Hsg & Hn).
    unfold sngl_ifo_job_setup. cbn [for_each]. unfold bindM at 1.
    unfold setup_segment. unfold bindM at 1. unfold lift.
    unfold segmenter_for, identify_needed_data, get_valid_times.
    rewrite Hsg, Hn. reflexivity.
  - eexists. split; [reflexivity|]. split; reflexivity.
Qed.

End AnyResolver.

(** C7. With the resolver of the specification, a job whose supplied parent
    list has no artifact of the instrument overlapping the valid window, or
    whose supplied data-input list has none overlapping the data window,
    makes [setup_job] raise, and the workflow, the executable and
    [out_files] are as they were before the job: no node is created or
    added.  When every supplied list has an overlapping artifact, the
    resolution returns the parents and data inputs without raising. *)
Theorem missing_dependency_aborts_job :
  forall ifo parents dfs allow exe_tags sg i st v d,
    get_valid_times_for_job sg i allow = Ok v ->
    get_data_times_for_job sg i = Ok d ->
    (truthy_opt parents = true ->
     (forall f, In f (files_of parents) -> matches ifo v f = false) ->
     resolve_job_inputs find_overlapping find_overlapping ifo parents dfs v d
       = Raise (no_parent_jobs v) /\
     setup_job update_current_tags create_node output_files
       find_overlapping find_overlapping ifo parents dfs allow exe_tags sg i st
       = (st, Raise (no_parent_jobs v))) /\
    (truthy dfs = true ->
     (forall f, In f dfs -> matches ifo d f = false) ->
     (truthy_opt parents = true ->
      exists f, In f (files_of parents) /\ matches ifo v f = true) ->
     resolve_job_inputs find_overlapping find_overlapping ifo parents dfs v d
       = Raise (no_datafind_jobs d) /\
     setup_job update_current_tags create_node output_files
       find_overlapping find_overlapping ifo parents dfs allow exe_tags sg i st
       = (st, Raise (no_datafind_jobs d))) /\
    ((truthy_opt parents = true ->
      exists f, In f (files_of parents) /\ matches ifo v f = true) ->
     (truthy dfs = true -> exists f, In f dfs /\ matches ifo d f = true) ->
     resolve_job_inputs find_overlapping find_overlapping ifo parents dfs v d
       = Ok (if truthy_opt parents
             then map Some (find_overlapping (files_of parents) ifo v)
             else [None],
             if truthy dfs then Some (find_overlapping dfs ifo d) else None)).
Proof.
  intros ifo parents dfs allow exe_tags sg i st v d Hv Hd.
  assert (Hnone : forall fs w, (forall f, In f fs -> matches ifo w f = false) ->
                               find_overlapping fs ifo w = []).
  { intros fs w H. unfold find_overlapping.
    induction fs as [|f fs IH]; [reflexivity|]. simpl.
    rewrite (H f (or_introl eq_refl)). apply IH. intros g Hg. apply H. now right. }
  assert (Hsome : forall fs w, (exists f, In f fs /\ matches ifo w f = true) ->
                               truthy (find_overlapping fs ifo w) = true).
  { intros fs w (f & Hin & Hm).
    assert (Hf : In f (find_overlapping fs ifo w)) by (apply filter_In; auto).
    destruct (find_overlapping fs ifo w); [contradiction|reflexivity]. }
  split; [|split].
  - intros Hp Hno.
    assert (Hres : resolve_job_inputs find_overlapping find_overlapping
                     ifo parents dfs v d = Raise (no_parent_jobs v)).
    { unfold resolve_job_inputs. rewrite Hp, (Hnone _ _ Hno). reflexivity. }
    split; [exact Hres|].
    unfold setup_job, bindM, lift. rewrite Hv, Hd, Hres. reflexivity.
  - intros Hdf Hno Hpar.
    assert (Hres : resolve_job_inputs find_overlapping find_overlapping
                     ifo parents dfs v d = Raise (no_datafind_jobs d)).
    { unfold resolve_job_inputs. rewrite Hdf, (Hnone _ _ Hno).
      destruct (truthy_opt parents).
      - rewrite (Hsome _ _ (Hpar eq_refl)). reflexivity.
      - reflexivity. }
    split; [exact Hres|].
    unfold setup_job, bindM, lift. rewrite Hv, Hd, Hres. reflexivity.
  - intros Hpar Hdf. unfold resolve_job_inputs.
    destruct (truthy_opt parents).
    + rewrite (Hsome _ _ (Hpar eq_refl)). cbn [negb bind].
      destruct (truthy dfs).
      * rewrite (Hsome _ _ (Hdf eq_refl)). reflexivity.
      * reflexivity.
    + cbn [bind]. destruct (truthy dfs).
      * rewrite (Hsome _ _ (Hdf eq_refl)). reflexivity.
      * reflexivity.
Qed.

End DriverFacts.

(** ** The scenarios of the specification as instances *)

Lemma scenario_chunks_well_formed : Forall well_formed (exe_valid_chunks scenario_exe).
Proof. repeat constructor. unfold well_formed. simpl. lia. Defined.

Lemma scenario_segmenter_built : segmenter_for scenario_exe scenario_seg = Ok scenario_segmenter.
Proof. reflexivity. Defined.

Lemma scenario_long_enough : data_length scenario_segmenter <= seg_abs scenario_seg.
Proof. vm_compute. discriminate. Defined.

Lemma valid_windows_cover_valid_span_witness :
  exists ws,
    job_valid_windows scenario_segmenter true = Ok ws /\
    List.length ws = Z.to_nat (num_jobs scenario_segmenter) /\
    (forall t, covered ws t = true <->
               seg_start scenario_seg + seg_start (valid_chunk scenario_segmenter) <= t
                 <= seg_end scenario_seg
                    - (data_length scenario_segmenter
                       - seg_end (valid_chunk scenario_segmenter))) /\
    (forall k w w', nth_error ws k = Some w -> nth_error ws (S k) = Some w' ->
                    seg_start w' <= seg_end w) /\
    (0 <= seg_start (valid_chunk scenario_segmenter) ->
     seg_end (valid_chunk scenario_segmenter) <= data_length scenario_segmenter ->
     forall w, In w ws -> contains_seg scenario_seg w = true).
Proof.
  apply (valid_windows_cover_valid_span scenario_exe scenario_seg scenario_segmenter).
  - exact scenario_chunks_well_formed.
  - exact scenario_segmenter_built.
  - exact scenario_long_enough.
Defined.

Lemma job_count_and_offsets_witness :
  num_jobs scenario_segmenter =
    Qceiling ((inject_Z (seg_abs scenario_seg) - inject_Z (data_loss scenario_segmenter))
              / inject_Z (valid_length scenario_segmenter)) /\
  exists shift,
    job_time_shift scenario_segmenter = Some shift /\
    (shift == (inject_Z (seg_abs scenario_seg)
               - inject_Z (data_length scenario_segmenter))
              / inject_Z (num_jobs scenario_segmenter - 1))%Q /\
    forall i, 0 <= i < num_jobs scenario_segmenter ->
      shift_dur scenario_segmenter i =
        Ok (seg_start scenario_seg + Qfloor (shift * inject_Z i + (1 # 10000))%Q).
Proof.
  apply (proj1 job_count_and_offsets scenario_exe scenario_seg scenario_segmenter).
  - exact scenario_chunks_well_formed.
  - exact scenario_segmenter_built.
  - exact scenario_long_enough.
Defined.

Lemma boundary_check_holds_witness :
  seg_start (data_window scenario_segmenter 0) = seg_start scenario_seg /\
  seg_end (data_window scenario_segmenter (num_jobs scenario_segmenter - 1))
    = seg_end scenario_seg /\
  (forall i, 0 <= i < num_jobs scenario_segmenter ->
     get_data_times_for_job scenario_segmenter i
       = Ok (extend_data scenario_segmenter (data_window scenario_segmenter i))) /\
  (pads_nonneg scenario_exe ->
   seg_start (extend_data scenario_segmenter (data_window scenario_segmenter 0))
     = seg_start scenario_seg /\
   seg_end (extend_data scenario_segmenter
              (data_window scenario_segmenter (num_jobs scenario_segmenter - 1)))
     = seg_end scenario_seg).
Proof.
  apply (proj1 boundary_check_holds scenario_exe scenario_seg scenario_segmenter).
  - exact scenario_chunks_well_formed.
  - exact scenario_segmenter_built.
  - vm_compute. discriminate.
Defined.

Lemma valid_window_within_data_window_witness :
  exists v d,
    get_valid_times_for_job scenario_segmenter 1 true = Ok v /\
    get_data_times_for_job scenario_segmenter 1 = Ok d /\
    contains_seg d v = true.
Proof.
  apply (proj2 valid_window_within_data_window scenario_exe scenario_seg
           scenario_segmenter 1).
  - exact scenario_chunks_well_formed.
  - reflexivity.
  - exact I.
  - vm_compute. discriminate.
  - vm_compute. discriminate.
  - split; [vm_compute; discriminate | reflexivity].
Defined.

Lemma shift_never_divides_by_zero_witness :
  (num_jobs scenario_segmenter = 1 <->
   seg_abs scenario_seg = data_length scenario_segmenter) /\
  (seg_abs scenario_seg <> data_length scenario_segmenter ->
   num_jobs scenario_segmenter - 1 <> 0) /\
  exists s,
    compute_shift (curr_seg_length scenario_segmenter)
      (data_length scenario_segmenter) (num_jobs scenario_segmenter) = Ok s /\
    job_time_shift scenario_segmenter = Some s /\
    (seg_abs scenario_seg = data_length scenario_segmenter -> s = 0%Q).
Proof.
  apply (proj1 shift_never_divides_by_zero scenario_exe scenario_seg
           scenario_segmenter).
  - exact scenario_chunks_well_formed.
  - exact scenario_segmenter_built.
  - exact scenario_long_enough.
Defined.

Lemma pick_tile_size_closest_to_third_witness :
  exists pick,
    nth_error [1000; 2048; 3000] pick = Some 2048 /\
    nth_error [mk_seg 50 950; mk_seg 72 1976; mk_seg 450 2550] pick
      = Some (mk_seg 72 1976) /\
    nth_error [900; 1904; 2100] pick = Some 1904 /\
    (forall j v, nth_error [900; 1904; 2100] j = Some v ->
       (tile_distance (inject_Z 6000 / 3) 1904 <= tile_distance (inject_Z 6000 / 3) v)%Q) /\
    (forall j v, (j < pick)%nat -> nth_error [900; 1904; 2100] j = Some v ->
       (tile_distance (inject_Z 6000 / 3) 1904 < tile_distance (inject_Z 6000 / 3) v)%Q).
Proof.
  apply (proj1 (proj2 pick_tile_size_closest_to_third) (inject_Z 6000)
           [1000; 2048; 3000] [mk_seg 50 950; mk_seg 72 1976; mk_seg 450 2550]
           [900; 1904; 2100] 2048 (mk_seg 72 1976) 1904).
  - simpl. lia.
  - reflexivity.
Defined.

Lemma short_segment_yields_no_jobs_witness :
  exists sg,
    JobSegmenter_init [2048] [mk_seg 72 1976] [1904] short_seg scenario_exe = Ok sg /\
    num_jobs sg = 0 /\
    forall allow,
      job_valid_windows sg allow = Ok [] /\ job_data_windows sg = Ok [].
Proof.
  apply (proj1 (short_segment_yields_no_jobs RecordedNode (list string)
                  (fun tags => tags) replace_tags record_node no_output_files
                  find_overlapping find_overlapping)
           [2048] [mk_seg 72 1976] [1904] short_seg scenario_exe
           2048 (mk_seg 72 1976) 1904).
  - reflexivity.
  - vm_compute. discriminate.
  - reflexivity.
Defined.

(** Scenario 3: a bank covering [50, 2000] is found for the valid window
    [72, 1976] of job 0 and is missing for the valid window of job 3. *)
Lemma missing_dependency_aborts_job_witness :
  (resolve_job_inputs find_overlapping find_overlapping "H1" (Some [bank_a]) []
     (mk_seg 4024 5928) (mk_seg 3952 6000)
     = Raise (no_parent_jobs (mk_seg 4024 5928)) /\
   setup_job replace_tags record_node no_output_files
     find_overlapping find_overlapping "H1" (Some [bank_a]) [] true []
     scenario_segmenter 3 empty_state
     = (empty_state, Raise (no_parent_jobs (mk_seg 4024 5928)))) /\
  resolve_job_inputs find_overlapping find_overlapping "H1" (Some [bank_a]) []
    (mk_seg 72 1976) (mk_seg 0 2048)
    = Ok ([Some bank_a], None).
Proof.
  split.
  - apply (proj1 (missing_dependency_aborts_job RecordedNode (list string)
                    replace_tags record_node no_output_files
                    "H1" (Some [bank_a]) [] true [] scenario_segmenter 3 empty_state
                    (mk_seg 4024 5928) (mk_seg 3952 6000) eq_refl eq_refl)).
    + reflexivity.
    + intros f [<-|[]]. reflexivity.
  - apply (proj2 (proj2 (missing_dependency_aborts_job RecordedNode (list string)
                    replace_tags record_node no_output_files
                    "H1" (Some [bank_a]) [] true [] scenario_segmenter 0 empty_state
                    (mk_seg 72 1976) (mk_seg 0 2048) eq_refl eq_refl))).
    + intros _. exists bank_a. split; [now left | reflexivity].
    + discriminate.
Defined.

(** Scenario 4: two banks overlapping the valid window of job 0 give two
    nodes with the same data window and data inputs. *)
Lemma one_node_per_resolved_parent_witness :
  exists nodes st',
    setup_job replace_tags record_node no_output_files
      find_overlapping find_overlapping "H1" (Some [bank_a; bank_b]) [frame_a]
      true [] scenario_segmenter 0 empty_state = (st', Ok tt) /\
    wf_nodes st' = wf_nodes empty_state ++ nodes /\
    Forall2 (fun p node =>
               exists es, record_node es (mk_seg 0 2048) (mk_seg 72 1976) p
                            (Some [frame_a]) = Ok node)
            [Some bank_a; Some bank_b] nodes /\
    (truthy_opt (Some [bank_a; bank_b]) = true ->
     [Some bank_a; Some bank_b]
       = map Some (find_overlapping (files_of (Some [bank_a; bank_b])) "H1"
                     (mk_seg 72 1976)) /\
     List.length nodes
       = List.length (find_overlapping (files_of (Some [bank_a; bank_b])) "H1"
                        (mk_seg 72 1976)) /\
     (1 <= List.length nodes)%nat) /\
    (truthy_opt (Some [bank_a; bank_b]) = false ->
     [Some bank_a; Some bank_b] = [None] /\ List.length nodes = 1%nat).
Proof.
  apply (one_node_per_resolved_parent RecordedNode (list string)
           replace_tags record_node no_output_files
           find_overlapping find_overlapping
           "H1" (Some [bank_a; bank_b]) [frame_a] true [] scenario_segmenter 0
           empty_state (mk_seg 72 1976) (mk_seg 0 2048)
           [Some bank_a; Some bank_b] (Some [frame_a])).
  - reflexivity.
  - reflexivity.
  - reflexivity.
  - intros es p _. eexists. reflexivity.
Defined.

(** * Further properties of jobsetup.py *)

(** ** GPS times as strings *)

Lemma str_of_Z_parses (z : Z) : Z_of_str (str_of_Z z) = Some z.
Proof.
  unfold Z_of_str, str_of_Z.
  rewrite NilZero.isi.
  - simpl. now rewrite DecimalZ.of_to.
  - destruct z; simpl; try discriminate.
    intro H. injection H as H. exact (DecimalPos.Unsigned.to_uint_nonnil _ H).
  - destruct z; simpl; try discriminate.
    intro H. injection H as H. exact (DecimalPos.Unsigned.to_uint_nonnil _ H).
Qed.

Lemma py_int_Z (z : Z) : py_int (inject_Z z) = z.
Proof.
  unfold py_int. destruct (Qle_bool 0 (inject_Z z)).
  - apply Qfloor_Z.
  - apply Qceiling_Z.
Qed.

Lemma Qabs_zero_iff (x : Q) : (Qabs x == 0 <-> x == 0)%Q.
Proof.
  split; intro H.
  - apply Qle_antisym.
    + apply Qle_trans with (Qabs x); [apply Qle_Qabs | rewrite H; apply Qle_refl].
    + assert (Hn : (Qabs x <= 0)%Q) by (rewrite H; apply Qle_refl).
      apply Qabs_Qle_condition in Hn. exact (proj1 Hn).
  - rewrite H. reflexivity.
Qed.

(** [int_gps_time_to_str] returns exactly for the times without fractional
    part: for such a time the string is the decimal numeral of the time and
    reads back to it, so distinct times give distinct strings; for any
    other time a [ValueError] is raised. *)
Theorem int_gps_time_to_str_integer_times :
  forall (str_t : Q -> string) (t : Q),
    (forall z, (t == inject_Z z)%Q ->
       int_gps_time_to_str str_t t = Ok (str_of_Z z) /\
       Z_of_str (str_of_Z z) = Some z /\
       forall z', str_of_Z z' = str_of_Z z -> z' = z) /\
    ((forall z, ~ (t == inject_Z z)%Q) ->
     exists msg, int_gps_time_to_str str_t t = Raise (ValueError msg)).
Proof.
  intros str_t t. split.
  - intros z Ht. split; [|split].
    + unfold int_gps_time_to_str.
      rewrite (py_int_comp _ _ Ht), py_int_Z.
      assert (E : Qltb 0 (Qabs (t - inject_Z z)) = false).
      { apply Qltb_ge.
        assert (H0 : (Qabs (t - inject_Z z) == 0)%Q).
        { apply (proj2 (Qabs_zero_iff _)). rewrite Ht. ring. }
        rewrite H0. apply Qle_refl. }
      now rewrite E.
    + apply str_of_Z_parses.
    + intros z' Hz.
      pose proof (str_of_Z_parses z') as H1. rewrite Hz, str_of_Z_parses in H1.
      congruence.
  - intro Hfrac. unfold int_gps_time_to_str.
    destruct (Qltb 0 (Qabs (t - inject_Z (py_int t)))) eqn:E.
    + eexists. reflexivity.
    + exfalso. apply Qltb_ge in E.
      apply (Hfrac (py_int t)).
      assert (H0 : (Qabs (t - inject_Z (py_int t)) == 0)%Q).
      { apply Qle_antisym; [exact E | apply Qabs_nonneg]. }
      remember (inject_Z (py_int t)) as q eqn:Eq. clear Eq.
      assert (H1 : (t - q == 0)%Q) by (apply (proj1 (Qabs_zero_iff _)); exact H0).
      transitivity ((t - q) + q)%Q; [ring|]. rewrite H1. ring.
Qed.

Lemma int_gps_time_to_str_integer_times_witness :
  (int_gps_time_to_str (fun _ => "1126259462") (inject_Z 1126259462)
     = Ok (str_of_Z 1126259462) /\
   Z_of_str (str_of_Z 1126259462) = Some 1126259462 /\
   forall z', str_of_Z z' = str_of_Z 1126259462 -> z' = 1126259462).
Proof.
  apply (proj1 (int_gps_time_to_str_integer_times
                  (fun _ => "1126259462") (inject_Z 1126259462)) 1126259462).
  reflexivity.
Defined.

(** ** Extension of the data window *)



(** ** The profiles of the executables *)

Lemma in_py_range_from (a b i : Z) : In i (py_range_from a b) <-> a <= i < b.
Proof.
  unfold py_range_from. rewrite in_map_iff. split.
  - intros (k & <- & Hk). apply in_seq in Hk. lia.
  - intro Hi. exists (Z.to_nat (i - a)). split; [lia|]. apply in_seq. lia.
Qed.

Lemma segment_of_well_formed (a b : Z) : well_formed (segment_of a b).
Proof.
  unfold segment_of, well_formed. destruct (Z.leb_spec a b); simpl; lia.
Qed.

Lemma Forall2_nth_error {A B : Type} (P : A -> B -> Prop) (l1 : list A) (l2 : list B) :
  Forall2 P l1 l2 ->
  forall p a b, nth_error l1 p = Some a -> nth_error l2 p = Some b -> P a b.
Proof.
  induction 1 as [|x y l1 l2 Hxy _ IH]; intros p a b Ha Hb.
  - destruct p; discriminate.
  - destruct p as [|p]; simpl in Ha, Hb.
    + injection Ha as <-. injection Hb as <-. exact Hxy.
    + eapply IH; eauto.
Qed.

Lemma Forall2_snoc {A B : Type} (P : A -> B -> Prop) l1 l2 a b :
  Forall2 P l1 l2 -> P a b -> Forall2 P (l1 ++ [a]) (l2 ++ [b]).
Proof.
  intros H Hab. apply Forall2_app; [exact H|]. constructor; [exact Hab|constructor].
Qed.

Section InspiralProfile.

Variable o : InspiralOptions.
Variable P : Z -> segment -> Prop.

Local Abbreviation slice := (segment_length o - segment_start_pad o - segment_end_pad o).

(** An invariant of the two accumulators is kept by the loop when every
    entry it appends satisfies it. *)
Lemma inspiral_loop_Forall2 (pad mn mx : Z) (seg_ranges : list Z) :
  (forall nsegs dl s e,
      In nsegs seg_ranges ->
      inspiral_region o pad (Some (slice * nsegs)) 0 = (dl, s, e) ->
      mn <= dl <= mx -> P dl (segment_of s e)) ->
  forall dls vrs,
    Forall2 P dls vrs ->
    Forall2 P (fst (inspiral_loop o pad mn mx seg_ranges dls vrs))
              (snd (inspiral_loop o pad mn mx seg_ranges dls vrs)).
Proof.
  induction seg_ranges as [|nsegs rest IH]; intros Hstep dls vrs Hacc.
  - exact Hacc.
  - cbn [inspiral_loop].
    destruct (inspiral_region o pad (Some (slice * nsegs)) 0) as [[dl s] e] eqn:Er.
    assert (Hrest : forall nsegs0 dl0 s0 e0,
               In nsegs0 rest ->
               inspiral_region o pad (Some (slice * nsegs0)) 0 = (dl0, s0, e0) ->
               mn <= dl0 <= mx -> P dl0 (segment_of s0 e0)).
    { intros n0 dl0 s0 e0 Hin. apply Hstep. now right. }
    destruct (Z.ltb_spec mx dl); [now apply IH|].
    destruct (Z.ltb_spec dl mn); [now apply IH|].
    apply IH; [exact Hrest|].
    apply Forall2_snoc; [exact Hacc|].
    apply (Hstep nsegs); [now left | exact Er | lia].
Qed.

End InspiralProfile.

(** [PyCBCInspiralExecutable.get_valid_times] returns as many valid regions
    as data lengths; every valid region is ordered, and every data length is
    at least the minimum analysis length and at most the maximum analysis
    length, unless it is the minimum analysis length itself, which is
    appended without being compared with the maximum. *)
Theorem inspiral_profile_within_bounds :
  forall o,
    Forall2 (fun dl vc =>
               well_formed vc /\
               opt_default (min_analysis_length o) 0 <= dl /\
               (dl <= opt_default (max_analysis_length o) 100000 \/
                dl = opt_default (min_analysis_length o) 0))
            (fst (inspiral_get_valid_times o)) (snd (inspiral_get_valid_times o)).
Proof.
  intro o. unfold inspiral_get_valid_times.
  set (mn := opt_default (min_analysis_length o) 0).
  set (mx := opt_default (max_analysis_length o) 100000).
  set (pad := 0 + opt_default (pad_data o) 0).
  set (rng := py_range_from _ _).
  pose proof (inspiral_loop_Forall2 o
                (fun dl vc => well_formed vc /\ mn <= dl /\ (dl <= mx \/ dl = mn))
                pad mn mx rng) as Hloop.
  destruct (inspiral_loop o pad mn mx rng [] []) as [dls vrs] eqn:El.
  assert (Hacc : Forall2 (fun dl vc => well_formed vc /\ mn <= dl /\ (dl <= mx \/ dl = mn))
                         dls vrs).
  { change dls with (fst (dls, vrs)). change vrs with (snd (dls, vrs)) at 2.
    rewrite <- El. apply Hloop; [|constructor].
    intros nsegs dl s e _ _ Hb. split; [apply segment_of_well_formed|lia]. }
  destruct (Z.eqb_spec mn 0) as [E0|Hne]; cbn [negb]; [exact Hacc|].
  destruct (inspiral_region o pad None mn) as [[dl s] e] eqn:Er.
  destruct (Z.ltb_spec s e); [|exact Hacc].
  cbn [fst snd]. apply Forall2_snoc; [exact Hacc|].
  split; [apply segment_of_well_formed|].
  assert (dl = mn).
  { unfold inspiral_region in Er. destruct (allow_zero_padding o); cbn [negb] in Er;
      now injection Er as <- _ _. }
  lia.
Qed.

(** Under sane options every entry of the profile satisfies [region_inv]:
    both the entries of the loop and the one appended for the minimum
    analysis length. *)
Lemma inspiral_profile_inv (o : InspiralOptions) :
  sane_inspiral_options o ->
  Forall2 (region_inv o)
          (fst (inspiral_get_valid_times o)) (snd (inspiral_get_valid_times o)).
Proof.
  intros (Hpad & Hsp & Hep & Hlen & Hmin). unfold inspiral_get_valid_times.
  set (mn := opt_default (min_analysis_length o) 0).
  set (mx := opt_default (max_analysis_length o) 100000).
  set (rng := py_range_from _ _).
  set (Inv := region_inv o).
  assert (Hloss : 0 <= inspiral_loss o).
  { unfold inspiral_loss. destruct (allow_zero_padding o); lia. }
  pose proof (inspiral_loop_Forall2 o Inv (0 + opt_default (pad_data o) 0) mn mx rng)
    as Hloop.
  destruct (inspiral_loop o (0 + opt_default (pad_data o) 0) mn mx rng [] [])
    as [dls vrs] eqn:El.
  assert (Hacc : Forall2 Inv dls vrs).
  { change dls with (fst (dls, vrs)). change vrs with (snd (dls, vrs)) at 2.
    rewrite <- El. apply Hloop; [|constructor].
    intros nsegs dl s e Hin Er _.
    apply in_py_range_from in Hin.
    assert (Hal : 0 <= (segment_length o - segment_start_pad o - segment_end_pad o)
                       * nsegs) by nia.
    unfold inspiral_region in Er. unfold Inv, region_inv, inspiral_loss, seg_abs.
    destruct (allow_zero_padding o); cbn [negb] in Er; injection Er as <- <- <-;
      rewrite segment_of_ordered by lia; cbn [seg_start seg_end]; lia. }
  destruct (Z.eqb_spec mn 0) as [E0|Hne]; cbn [negb]; [exact Hacc|].
  destruct (inspiral_region o (0 + opt_default (pad_data o) 0) None mn)
    as [[dl s] e] eqn:Er.
  destruct (Z.ltb_spec s e) as [Hse|]; [|exact Hacc].
  cbn [fst snd]. apply Forall2_snoc; [exact Hacc|].
  unfold inspiral_region in Er. unfold Inv, region_inv, inspiral_loss, seg_abs.
  destruct (allow_zero_padding o); cbn [negb] in Er; injection Er as <- <- <-;
    rewrite segment_of_ordered by lia; cbn [seg_start seg_end]; lia.
Qed.

(** With paddings that are not negative, a segment length that leaves room
    for the start and end paddings and a minimum number of analysis segments
    that is not negative, every entry of the inspiral profile has its valid
    region within [0, data length], and the data lost is the same for all
    entries: twice the pad data, plus the start and end paddings unless
    zero padding is allowed. *)
Theorem inspiral_profile_regions :
  forall o,
    sane_inspiral_options o ->
    Forall2 (fun dl vc =>
               0 <= seg_start vc /\ seg_start vc <= seg_end vc /\ seg_end vc <= dl /\
               dl - seg_abs vc = inspiral_loss o /\ 0 <= inspiral_loss o)
            (fst (inspiral_get_valid_times o)) (snd (inspiral_get_valid_times o)).
Proof.
  intros o Hsane.
  pose proof (inspiral_profile_inv o Hsane) as Hinv.
  induction Hinv as [|dl vc dls vcs Hx _ IH]; constructor.
  - unfold region_inv in Hx. exact Hx.
  - exact IH.
Qed.

Lemma example_inspiral_sane : sane_inspiral_options example_inspiral.
Proof. unfold sane_inspiral_options. simpl. lia. Defined.

Lemma inspiral_profile_regions_witness :
  Forall2 (fun dl vc =>
             0 <= seg_start vc /\ seg_start vc <= seg_end vc /\ seg_end vc <= dl /\
             dl - seg_abs vc = inspiral_loss example_inspiral /\
             0 <= inspiral_loss example_inspiral)
          (fst (inspiral_get_valid_times example_inspiral))
          (snd (inspiral_get_valid_times example_inspiral)).
Proof.
  apply (inspiral_profile_regions example_inspiral). exact example_inspiral_sane.
Defined.

(** ** The tile a segmenter holds *)

(** The only exception of [pick_tile_size] is [IndexError]. *)
Lemma pick_tile_size_raises (L : Q) dls vcs vls err :
  pick_tile_size L dls vcs vls = Raise err -> err = IndexError.
Proof.
  unfold pick_tile_size, pick_index, py_index. intro H.
  repeat match type of H with
         | context [if ?b then _ else _] => destruct b
         | context [match ?o with Some _ => _ | None => _ end] => destruct o
         | _ => progress cbn [bind] in H
         end; congruence.
Qed.

(** The data length and the valid chunk of a segmenter come from the same
    entry of the profile. *)
Lemma segmenter_for_entry (e : ExeClass) (seg : segment) (sg : JobSegmenter) :
  segmenter_for e seg = Ok sg ->
  exe_class sg = e /\ curr_seg sg = seg /\
  data_loss sg = data_length sg - seg_abs (valid_chunk sg) /\
  exists p, nth_error (exe_data_lengths e) p = Some (data_length sg) /\
            nth_error (exe_valid_chunks e) p = Some (valid_chunk sg).
Proof.
  intro Hsg.
  unfold segmenter_for, identify_needed_data, get_valid_times, JobSegmenter_init in Hsg.
  destruct (pick_tile_size _ _ _ _) as [[[dl vc] vl]|] eqn:Etile; [|discriminate].
  cbn [bind] in Hsg.
  apply pick_tile_size_inv in Etile as (p & _ & Hdl & Hvc & _).
  destruct (dl - seg_abs vc <? 0); [discriminate|].
  destruct (Qltb _ _).
  - injection Hsg as <-. cbn. repeat split; eauto.
  - destruct (count_jobs _ _ _) as [n|]; [|discriminate]. cbn [bind] in Hsg.
    destruct (compute_shift _ _ _) as [s|]; [|discriminate]. cbn [bind] in Hsg.
    injection Hsg as <-. cbn. repeat split; eauto.
Qed.

(** A segmenter without jobs was built for a segment shorter than the data
    length and has no [job_time_shift]. *)
Lemma segmenter_for_no_jobs (e : ExeClass) (seg : segment) (sg : JobSegmenter) :
  Forall well_formed (exe_valid_chunks e) ->
  segmenter_for e seg = Ok sg ->
  num_jobs sg = 0 ->
  seg_abs seg < data_length sg /\ job_time_shift sg = None.
Proof.
  intros Hwf Hsg Hn.
  destruct (Z_lt_le_dec (seg_abs seg) (data_length sg)) as [Hlt|Hle].
  - split; [exact Hlt|].
    unfold segmenter_for, identify_needed_data, get_valid_times, JobSegmenter_init in Hsg.
    destruct (pick_tile_size _ _ _ _) as [[[dl vc] vl]|]; [|discriminate].
    cbn [bind] in Hsg.
    destruct (dl - seg_abs vc <? 0); [discriminate|].
    destruct (Qltb _ _) eqn:Eshort.
    + now injection Hsg as <-.
    + apply Qltb_ge in Eshort. rewrite <- Zle_Qle in Eshort.
      destruct (count_jobs _ _ _) as [n|]; [|discriminate]. cbn [bind] in Hsg.
      destruct (compute_shift _ _ _) as [s|]; [|discriminate]. cbn [bind] in Hsg.
      injection Hsg as <-. cbn in Hlt. lia.
  - destruct (segmenter_for_tiled e seg sg Hwf Hsg (or_introl Hle)) as (HT & _).
    pose proof (tiled_num_jobs sg HT). lia.
Qed.

Section ReturnedWindows.

Variable sg : JobSegmenter.
Hypothesis tiled : Tiled sg.
Hypothesis pads : pads_nonneg (exe_class sg).

Lemma returned_data_window_bounds (i : Z) :
  0 <= i < num_jobs sg ->
  seg_start (curr_seg sg) <= seg_start (returned_data_window sg i)
    <= seg_start (data_window sg i) /\
  seg_end (data_window sg i) <= seg_end (returned_data_window sg i)
    <= seg_end (curr_seg sg).
Proof.
  intro Hi. pose proof (data_length_nonneg sg tiled) as HD.
  destruct (data_window_bounds sg tiled i Hi) as (Ha & Hb & Hc).
  apply extend_data_grows; try assumption. lia.
Qed.

Lemma valid_in_returned_data (i : Z) :
  0 <= seg_start (valid_chunk sg) ->
  seg_end (valid_chunk sg) <= data_length sg ->
  0 <= i < num_jobs sg ->
  contains_seg (returned_data_window sg i) (valid_window sg i) = true /\
  contains_seg (curr_seg sg) (returned_data_window sg i) = true.
Proof.
  intros Hlo Hhi Hi.
  pose proof (returned_data_window_bounds i Hi) as Hb.
  destruct (data_window_bounds sg tiled i Hi) as (Ha & Hb' & Hc).
  unfold contains_seg. rewrite !andb_true_iff, !Z.leb_le.
  assert (Hvs : seg_start (valid_window sg i)
                = seg_start (data_window sg i) + seg_start (valid_chunk sg)).
  { unfold valid_window, data_window. simpl. lia. }
  assert (Hve : seg_end (valid_window sg i)
                = seg_start (data_window sg i) + seg_end (valid_chunk sg)).
  { unfold valid_window, data_window. simpl. lia. }
  lia.
Qed.

End ReturnedWindows.

(** For an inspiral executable with sane options the constructor never
    raises the "needs fixing" error; the segmenter it returns loses the data
    of the profile, and every job is valid within the data window it
    reads, which lies within the science segment. *)
Theorem inspiral_jobs_valid_within_data :
  forall o seg,
    sane_inspiral_options o ->
    segmenter_for (inspiral_exe o) seg <> Raise needs_fixing /\
    forall sg,
      segmenter_for (inspiral_exe o) seg = Ok sg ->
      data_loss sg = inspiral_loss o /\
      forall i, 0 <= i < num_jobs sg ->
        exists v d,
          get_valid_times_for_job sg i true = Ok v /\
          get_data_times_for_job sg i = Ok d /\
          contains_seg d v = true /\ contains_seg seg d = true.
Proof.
  intros o seg Hsane.
  pose proof (inspiral_profile_inv o Hsane) as Hprof.
  split.
  - intro Hraise.
    unfold segmenter_for, identify_needed_data, get_valid_times, JobSegmenter_init
      in Hraise.
    destruct (pick_tile_size _ _ _ _) as [[[dl vc] vl]|e0] eqn:Etile;
      cbn [bind] in Hraise;
      [|apply pick_tile_size_raises in Etile; subst e0; discriminate].
    apply pick_tile_size_inv in Etile as (p & _ & Hdl & Hvc & _).
    pose proof (Forall2_nth_error _ _ _ Hprof p dl vc Hdl Hvc) as (_ & _ & _ & Hl & Hl0).
    destruct (Z.ltb_spec (dl - seg_abs vc) 0) as [|_]; [lia|].
    destruct (Qltb _ _); [discriminate|].
    destruct (count_jobs _ _ _) as [n|e1] eqn:Ec; cbn [bind] in Hraise.
    + destruct (compute_shift _ _ _) as [s|e2] eqn:Es; cbn [bind] in Hraise;
        [discriminate|].
      unfold compute_shift in Es.
      destruct (Qeq_bool _ _); [discriminate|].
      destruct (n - 1 =? 0); [|discriminate].
      injection Es as <-. discriminate.
    + unfold count_jobs in Ec. destruct (vl =? 0); [|discriminate].
      injection Ec as <-. discriminate.
  - intros sg Hsg.
    destruct (segmenter_for_entry _ _ _ Hsg) as (He & Hseg & Hloss & p & Hdl & Hvc).
    pose proof (Forall2_nth_error _ _ _ Hprof p _ _ Hdl Hvc)
      as (Hlo & Hord & Hhi & Hl & _).
    split; [lia|].
    intros i Hi.
    assert (Hwf : Forall well_formed (exe_valid_chunks (inspiral_exe o))).
    { cbn [inspiral_exe exe_valid_chunks].
      clear -Hprof. induction Hprof as [|dl vc dls vcs Hx _ IH]; constructor;
        [unfold well_formed; unfold region_inv in Hx; tauto | exact IH]. }
    assert (Hnz : num_jobs sg <> 0) by lia.
    destruct (segmenter_for_tiled _ _ _ Hwf Hsg (or_intror Hnz)) as (HT & _).
    assert (Hpads : pads_nonneg (exe_class sg)).
    { rewrite He. unfold pads_nonneg. cbn. destruct Hsane as (_ & ? & ? & _). lia. }
    exists (valid_window sg i), (returned_data_window sg i).
    split; [now apply tiled_valid_times|].
    split; [now apply tiled_data_times|].
    rewrite <- Hseg. now apply valid_in_returned_data.
Qed.

Lemma inspiral_jobs_valid_within_data_witness :
  segmenter_for (inspiral_exe example_inspiral) scenario_seg <> Raise needs_fixing /\
  forall sg,
    segmenter_for (inspiral_exe example_inspiral) scenario_seg = Ok sg ->
    data_loss sg = inspiral_loss example_inspiral /\
    forall i, 0 <= i < num_jobs sg ->
      exists v d,
        get_valid_times_for_job sg i true = Ok v /\
        get_data_times_for_job sg i = Ok d /\
        contains_seg d v = true /\ contains_seg scenario_seg d = true.
Proof.
  apply (inspiral_jobs_valid_within_data example_inspiral scenario_seg).
  exact example_inspiral_sane.
Defined.

(** ** Outcomes of the constructor *)

Lemma segmenter_for_cases (e : ExeClass) (seg : segment) dl vc vl :
  pick_tile_size (inject_Z (seg_abs seg)) (exe_data_lengths e) (exe_valid_chunks e)
    (map seg_abs (exe_valid_chunks e)) = Ok (dl, vc, vl) ->
  (dl < seg_abs vc -> segmenter_for e seg = Raise needs_fixing) /\
  (seg_abs vc <= dl -> seg_abs seg < dl ->
   exists sg, segmenter_for e seg = Ok sg /\ num_jobs sg = 0 /\
              data_length sg = dl /\ valid_chunk sg = vc) /\
  (seg_abs vc <= dl -> dl <= seg_abs seg -> seg_abs vc = 0 ->
   segmenter_for e seg = Raise ZeroDivisionError) /\
  (0 < seg_abs vc -> seg_abs vc <= dl -> dl <= seg_abs seg ->
   exists sg, segmenter_for e seg = Ok sg /\ 1 <= num_jobs sg /\
              data_length sg = dl /\ valid_chunk sg = vc).
Proof.
  intro Htile.
  assert (Hvl : vl = seg_abs vc).
  { apply pick_tile_size_inv in Htile as (p & _ & _ & Hvc & Hvl).
    rewrite nth_error_map, Hvc in Hvl. now injection Hvl. }
  subst vl.
  unfold segmenter_for, identify_needed_data, get_valid_times, JobSegmenter_init.
  rewrite Htile. cbn [bind].
  repeat split.
  - intro Hneg. destruct (Z.ltb_spec (dl - seg_abs vc) 0); [reflexivity|lia].
  - intros Hloss Hshort. destruct (Z.ltb_spec (dl - seg_abs vc) 0); [lia|].
    assert (E : Qltb (inject_Z (seg_abs seg)) (inject_Z dl) = true).
    { apply Qltb_lt. now rewrite <- Zlt_Qlt. }
    rewrite E. eexists. repeat split.
  - intros Hloss Hlong Hzero. destruct (Z.ltb_spec (dl - seg_abs vc) 0); [lia|].
    assert (E : Qltb (inject_Z (seg_abs seg)) (inject_Z dl) = false).
    { apply Qltb_ge. now rewrite <- Zle_Qle. }
    rewrite E. unfold count_jobs. rewrite Hzero. reflexivity.
  - intros Hpos Hloss Hlong. destruct (Z.ltb_spec (dl - seg_abs vc) 0); [lia|].
    assert (E : Qltb (inject_Z (seg_abs seg)) (inject_Z dl) = false).
    { apply Qltb_ge. now rewrite <- Zle_Qle. }
    rewrite E. rewrite count_jobs_ceil by lia. cbn [bind].
    rewrite compute_shift_ok by lia. cbn [bind].
    eexists. repeat split. cbn [num_jobs]. apply jobs_positive; lia.
Qed.

(** What [JobSegmenter.__init__] does with the tile it picks: it raises the
    "needs fixing" [ValueError] when the valid chunk is longer than the data
    length; otherwise it returns without jobs when the science segment is
    shorter than the data length, raises [ZeroDivisionError] when the
    segment is long enough and the valid chunk is empty, and returns with at
    least one job in the remaining case.  With an empty profile it raises
    [IndexError]. *)
Theorem constructor_outcomes :
  (forall e seg dl vc vl,
      pick_tile_size (inject_Z (seg_abs seg)) (exe_data_lengths e)
        (exe_valid_chunks e) (map seg_abs (exe_valid_chunks e)) = Ok (dl, vc, vl) ->
      (dl < seg_abs vc -> segmenter_for e seg = Raise needs_fixing) /\
      (seg_abs vc <= dl -> seg_abs seg < dl ->
       exists sg, segmenter_for e seg = Ok sg /\ num_jobs sg = 0 /\
                  data_length sg = dl /\ valid_chunk sg = vc) /\
      (seg_abs vc <= dl -> dl <= seg_abs seg -> seg_abs vc = 0 ->
       segmenter_for e seg = Raise ZeroDivisionError) /\
      (0 < seg_abs vc -> seg_abs vc <= dl -> dl <= seg_abs seg ->
       exists sg, segmenter_for e seg = Ok sg /\ 1 <= num_jobs sg /\
                  data_length sg = dl /\ valid_chunk sg = vc)) /\
  (forall e seg,
      exe_valid_chunks e = [] -> segmenter_for e seg = Raise IndexError).
Proof.
  split.
  - exact segmenter_for_cases.
  - intros e seg Hempty.
    unfold segmenter_for, identify_needed_data, get_valid_times, JobSegmenter_init.
    rewrite Hempty. reflexivity.
Qed.

Lemma constructor_outcomes_witness :
  (2048 < seg_abs (mk_seg 72 1976) ->
   segmenter_for scenario_exe short_seg = Raise needs_fixing) /\
  (seg_abs (mk_seg 72 1976) <= 2048 -> seg_abs short_seg < 2048 ->
   exists sg, segmenter_for scenario_exe short_seg = Ok sg /\ num_jobs sg = 0 /\
              data_length sg = 2048 /\ valid_chunk sg = mk_seg 72 1976) /\
  (seg_abs (mk_seg 72 1976) <= 2048 -> 2048 <= seg_abs short_seg ->
   seg_abs (mk_seg 72 1976) = 0 ->
   segmenter_for scenario_exe short_seg = Raise ZeroDivisionError) /\
  (0 < seg_abs (mk_seg 72 1976) -> seg_abs (mk_seg 72 1976) <= 2048 ->
   2048 <= seg_abs short_seg ->
   exists sg, segmenter_for scenario_exe short_seg = Ok sg /\ 1 <= num_jobs sg /\
              data_length sg = 2048 /\ valid_chunk sg = mk_seg 72 1976).
Proof.
  apply (proj1 constructor_outcomes scenario_exe short_seg 2048 (mk_seg 72 1976) 1904).
  reflexivity.
Defined.

(** A segmenter that was returned without jobs has no [job_time_shift]:
    asking it for the times of any job raises [AttributeError]. *)
Theorem no_jobs_no_times :
  forall e seg sg i allow_overlap,
    Forall well_formed (exe_valid_chunks e) ->
    segmenter_for e seg = Ok sg ->
    num_jobs sg = 0 ->
    get_valid_times_for_job sg i allow_overlap = Raise AttributeError /\
    get_data_times_for_job sg i = Raise AttributeError.
Proof.
  intros e seg sg i allow Hwf Hsg Hn.
  destruct (segmenter_for_no_jobs e seg sg Hwf Hsg Hn) as (_ & Hshift).
  unfold get_valid_times_for_job, get_data_times_for_job, shift_dur,
    get_job_time_shift.
  rewrite Hshift. split; reflexivity.
Qed.

Lemma no_jobs_no_times_witness :
  exists sg,
    segmenter_for scenario_exe short_seg = Ok sg /\
    get_valid_times_for_job sg 0 true = Raise AttributeError /\
    get_data_times_for_job sg 0 = Raise AttributeError.
Proof.
  eexists. split; [reflexivity|].
  eapply (no_jobs_no_times scenario_exe short_seg _ 0 true).
  - exact scenario_chunks_well_formed.
  - reflexivity.
  - reflexivity.
Defined.

(** For a template bank executable with pad data that is not negative and
    a positive analysis length, the constructor returns for every science
    segment.  The data length is the analysis length plus twice the pad
    data and the data lost is twice the pad data.  A segment shorter than
    the data length gets no job; a longer one gets the least number of jobs
    whose analysis lengths cover the segment less the lost data, and every
    job reads a window of the data length within the segment and is valid
    over that window less the pad data at each end. *)
Theorem tmpltbank_jobs :
  forall o seg,
    0 <= tb_pad_data o ->
    0 < tb_analysis_length o ->
    exists sg,
      segmenter_for (tmpltbank_exe o) seg = Ok sg /\
      data_length sg = tb_analysis_length o + tb_pad_data o * 2 /\
      data_loss sg = tb_pad_data o * 2 /\
      (seg_abs seg < data_length sg -> num_jobs sg = 0) /\
      (data_length sg <= seg_abs seg ->
       tb_analysis_length o * (num_jobs sg - 1)
         < seg_abs seg - data_loss sg <= tb_analysis_length o * num_jobs sg /\
       forall i, 0 <= i < num_jobs sg ->
         exists d,
           get_data_times_for_job sg i = Ok d /\
           get_valid_times_for_job sg i true
             = Ok (mk_seg (seg_start d + tb_pad_data o) (seg_end d - tb_pad_data o)) /\
           seg_abs d = data_length sg /\
           contains_seg seg d = true).
Proof.
  intros o seg Hpad Hal.
  set (dl := tb_analysis_length o + tb_pad_data o * 2).
  set (vc := mk_seg (tb_pad_data o) (tb_analysis_length o + tb_pad_data o)).
  assert (Hchunks : exe_valid_chunks (tmpltbank_exe o) = [vc]).
  { cbn. unfold vc. rewrite segment_of_ordered by lia. f_equal. f_equal. lia. }
  assert (Hdls : exe_data_lengths (tmpltbank_exe o) = [dl]) by reflexivity.
  assert (Htile : pick_tile_size (inject_Z (seg_abs seg))
                    (exe_data_lengths (tmpltbank_exe o))
                    (exe_valid_chunks (tmpltbank_exe o))
                    (map seg_abs (exe_valid_chunks (tmpltbank_exe o)))
                  = Ok (dl, vc, seg_abs vc)).
  { rewrite Hchunks, Hdls. reflexivity. }
  assert (Hvabs : seg_abs vc = tb_analysis_length o) by (unfold vc, seg_abs; simpl; lia).
  assert (Hwf : Forall well_formed (exe_valid_chunks (tmpltbank_exe o))).
  { rewrite Hchunks. repeat constructor. unfold well_formed, vc. simpl. lia. }
  destruct (segmenter_for_cases _ seg _ _ _ Htile) as (_ & Hshort & _ & Hlong).
  assert (Hex : exists sg, segmenter_for (tmpltbank_exe o) seg = Ok sg /\
                           data_length sg = dl /\ valid_chunk sg = vc).
  { destruct (Z_lt_le_dec (seg_abs seg) dl) as [Hlt|Hle].
    - destruct Hshort as (sg & H1 & _ & H2 & H3); [unfold dl; lia | exact Hlt |].
      exists sg. auto.
    - destruct Hlong as (sg & H1 & _ & H2 & H3); [lia | unfold dl; lia | exact Hle |].
      exists sg. auto. }
  destruct Hex as (sg & Hsg & Hdl & Hvc).
  destruct (segmenter_for_entry _ _ _ Hsg) as (He & Hseg & Hloss & _).
  exists sg. split; [exact Hsg|]. split; [exact Hdl|].
  assert (Hl : data_loss sg = tb_pad_data o * 2).
  { rewrite Hloss, Hdl, Hvc, Hvabs. unfold dl. lia. }
  split; [exact Hl|]. split.
  - intro Hlt.
    destruct (Z.eq_dec (num_jobs sg) 0) as [|Hnz]; [assumption|].
    destruct (segmenter_for_tiled _ _ _ Hwf Hsg (or_intror Hnz)) as (HT & _).
    destruct HT. rewrite Hseg in *. lia.
  - intro Hle.
    destruct (segmenter_for_tiled _ _ _ Hwf Hsg (or_introl Hle)) as (HT & _).
    split.
    + pose proof (tiled_jobs sg HT) as Hn.
      pose proof (tiled_valid_length sg HT) as Hv.
      pose proof (jobs_bounds (seg_abs (curr_seg sg)) (data_length sg)
                    (valid_length sg) (tiled_valid_pos sg HT)) as Hb.
      rewrite <- Hn in Hb. rewrite Hseg in Hb.
      rewrite Hv, Hvc, Hvabs in Hb. rewrite Hl. rewrite Hdl in Hb. unfold dl in Hb.
      lia.
    + intros i Hi.
      assert (Hpads : pads_nonneg (exe_class sg)).
      { rewrite He. exact I. }
      exists (returned_data_window sg i).
      assert (Hret : returned_data_window sg i = data_window sg i).
      { unfold returned_data_window, extend_data. now rewrite He. }
      split; [now apply tiled_data_times|].
      rewrite (tiled_valid_times sg HT).
      assert (Hin : 0 <= seg_start (valid_chunk sg) /\
                    seg_end (valid_chunk sg) <= data_length sg).
      { rewrite Hvc, Hdl. unfold vc, dl. simpl. lia. }
      destruct (valid_in_returned_data sg HT Hpads i (proj1 Hin) (proj2 Hin) Hi)
        as (_ & Hwithin).
      rewrite Hseg in Hwithin.
      rewrite Hret in *. split; [|split; [|exact Hwithin]].
      * f_equal. unfold valid_window, data_window, shift.
        rewrite Hvc, Hdl. unfold vc, dl. cbn [seg_start seg_end]. f_equal; lia.
      * unfold data_window, seg_abs. simpl. lia.
Qed.

Lemma tmpltbank_jobs_witness :
  exists sg,
    segmenter_for (tmpltbank_exe example_tmpltbank) scenario_seg = Ok sg /\
    data_length sg
      = tb_analysis_length example_tmpltbank + tb_pad_data example_tmpltbank * 2 /\
    data_loss sg = tb_pad_data example_tmpltbank * 2 /\
    (seg_abs scenario_seg < data_length sg -> num_jobs sg = 0) /\
    (data_length sg <= seg_abs scenario_seg ->
     tb_analysis_length example_tmpltbank * (num_jobs sg - 1)
       < seg_abs scenario_seg - data_loss sg
       <= tb_analysis_length example_tmpltbank * num_jobs sg /\
     forall i, 0 <= i < num_jobs sg ->
       exists d,
         get_data_times_for_job sg i = Ok d /\
         get_valid_times_for_job sg i true
           = Ok (mk_seg (seg_start d + tb_pad_data example_tmpltbank)
                        (seg_end d - tb_pad_data example_tmpltbank)) /\
         seg_abs d = data_length sg /\
         contains_seg scenario_seg d = true).
Proof.
  apply (tmpltbank_jobs example_tmpltbank scenario_seg); simpl; lia.
Defined.

(** ** Coverage by the data windows *)

Lemma chain_reach (w : Z -> segment) (k : nat) :
  (forall i, 0 <= i < Z.of_nat k -> seg_start (w (i + 1)) <= seg_end (w i)) ->
  forall t,
    seg_start (w 0) <= t <= seg_end (w (Z.of_nat k)) ->
    exists i, 0 <= i <= Z.of_nat k /\ contains (w i) t = true.
Proof.
  induction k as [|k IH]; intros Hchain t Ht.
  - exists 0. split; [lia|]. unfold contains.
    apply andb_true_iff. rewrite !Z.leb_le. simpl Z.of_nat in Ht. lia.
  - destruct (Z_le_gt_dec t (seg_end (w (Z.of_nat k)))) as [Hle|Hgt].
    + destruct IH with (t := t) as (i & Hi & Hc).
      * intros i Hi. apply Hchain. lia.
      * lia.
      * exists i. split; [lia|exact Hc].
    + exists (Z.of_nat (S k)). split; [lia|]. unfold contains.
      apply andb_true_iff. rewrite !Z.leb_le.
      pose proof (Hchain (Z.of_nat k) ltac:(lia)) as Hstep.
      replace (Z.of_nat (S k)) with (Z.of_nat k + 1) in * by lia. lia.
Qed.

Lemma covered_map_range (w : Z -> segment) (n t : Z) :
  covered (map w (py_range n)) t = true <->
  exists i, 0 <= i < n /\ contains (w i) t = true.
Proof.
  unfold covered. rewrite existsb_exists. split.
  - intros (x & Hin & Hc). apply in_map_iff in Hin as (i & <- & Hi).
    apply in_py_range in Hi. eauto.
  - intros (i & Hi & Hc). exists (w i). split; [|exact Hc].
    apply in_map. now apply in_py_range.
Qed.

Lemma nth_map_range (w : Z -> segment) (n : Z) (k : nat) (x : segment) :
  nth_error (map w (py_range n)) k = Some x ->
  (k < Z.to_nat n)%nat /\ x = w (Z.of_nat k).
Proof.
  intro H.
  assert (Hk : (k < Z.to_nat n)%nat).
  { rewrite <- py_range_length, <- (length_map w). apply nth_error_Some. congruence. }
  split; [exact Hk|].
  rewrite nth_error_map, py_range_nth in H by exact Hk.
  cbn [option_map] in H. now injection H.
Qed.

(** In a science segment that gets at least one job, with paddings that
    are not negative, [get_data_times_for_job] returns for every job; the
    windows read by the jobs cover the science segment exactly, consecutive
    windows overlap or touch, and every window is at least as long as the
    data length and lies within the segment: no data of the segment is
    left unread. *)
Theorem data_windows_cover_segment :
  forall e seg sg,
    Forall well_formed (exe_valid_chunks e) ->
    pads_nonneg e ->
    segmenter_for e seg = Ok sg ->
    1 <= num_jobs sg ->
    exists ws,
      job_data_windows sg = Ok ws /\
      List.length ws = Z.to_nat (num_jobs sg) /\
      (forall t, covered ws t = true <-> seg_start seg <= t <= seg_end seg) /\
      (forall k w w', nth_error ws k = Some w -> nth_error ws (S k) = Some w' ->
                      seg_start w' <= seg_end w) /\
      (forall w, In w ws ->
                 data_length sg <= seg_abs w /\ contains_seg seg w = true).
Proof.
  intros e seg sg Hwf Hpads Hsg Hn.
  assert (Hnz : num_jobs sg <> 0) by lia.
  destruct (segmenter_for_tiled e seg sg Hwf Hsg (or_intror Hnz))
    as (HT & He & Hseg & _).
  rewrite <- He in Hpads.
  pose proof (returned_data_window_bounds sg HT Hpads) as Hret.
  pose proof (data_window_bounds sg HT) as Hdw.
  assert (Hchain : forall i, 0 <= i < num_jobs sg - 1 ->
             seg_start (returned_data_window sg (i + 1))
             <= seg_end (returned_data_window sg i)).
  { intros i Hi.
    pose proof (Hret i ltac:(lia)). pose proof (Hret (i + 1) ltac:(lia)).
    pose proof (tiled_off_step sg HT i ltac:(lia)) as Hstep.
    destruct HT.
    assert (seg_start (data_window sg (i + 1)) <= seg_end (data_window sg i)).
    { unfold data_window. simpl. lia. }
    lia. }
  exists (map (returned_data_window sg) (py_range (num_jobs sg))).
  split; [|split; [|split; [|split]]].
  - unfold job_data_windows. apply map_result_Ok.
    intros i Hi. apply in_py_range in Hi. now apply tiled_data_times.
  - now rewrite length_map, py_range_length.
  - intro t. rewrite covered_map_range. rewrite <- Hseg. split.
    + intros (i & Hi & Hc). specialize (Hret i Hi).
      unfold contains in Hc. apply andb_true_iff in Hc. rewrite !Z.leb_le in Hc.
      lia.
    + intro Ht.
      destruct (chain_reach (returned_data_window sg) (Z.to_nat (num_jobs sg - 1)))
        with (t := t) as (i & Hi & Hc).
      * intros i Hi. apply Hchain. lia.
      * rewrite Z2Nat.id by lia.
        pose proof (Hret 0 ltac:(lia)). pose proof (Hret (num_jobs sg - 1) ltac:(lia)).
        pose proof (data_window_first sg HT). pose proof (data_window_last sg HT).
        lia.
      * exists i. split; [lia|exact Hc].
  - intros k w w' Hw Hw'.
    apply nth_map_range in Hw as (Hk & ->). apply nth_map_range in Hw' as (Hk' & ->).
    rewrite Nat2Z.inj_succ. unfold Z.succ. apply Hchain. lia.
  - intros w Hin. apply in_map_iff in Hin as (i & <- & Hi).
    apply in_py_range in Hi. specialize (Hret i Hi).
    destruct (Hdw i Hi) as (_ & _ & Hlen).
    rewrite <- Hseg. unfold seg_abs, contains_seg.
    rewrite andb_true_iff, !Z.leb_le. lia.
Qed.

Lemma data_windows_cover_segment_witness :
  exists ws,
    job_data_windows scenario_segmenter = Ok ws /\
    List.length ws = Z.to_nat (num_jobs scenario_segmenter) /\
    (forall t, covered ws t = true <->
               seg_start scenario_seg <= t <= seg_end scenario_seg) /\
    (forall k w w', nth_error ws k = Some w -> nth_error ws (S k) = Some w' ->
                    seg_start w' <= seg_end w) /\
    (forall w, In w ws ->
               data_length scenario_segmenter <= seg_abs w /\
               contains_seg scenario_seg w = true).
Proof.
  apply (data_windows_cover_segment scenario_exe scenario_seg scenario_segmenter).
  - exact scenario_chunks_well_formed.
  - exact I.
  - exact scenario_segmenter_built.
  - vm_compute. discriminate.
Defined.

(** ** Windows without overlap *)




Lemma py_int_mono (x y : Q) : (x <= y)%Q -> py_int x <= py_int y.
Proof.
  intro H. unfold py_int.
  destruct (Qle_bool 0 x) eqn:Ex, (Qle_bool 0 y) eqn:Ey.
  - now apply Qfloor_resp_le.
  - apply Qle_bool_iff in Ex. exfalso.
    assert (Hy : Qle_bool 0 y = true)
      by (apply Qle_bool_iff; eapply Qle_trans; eauto).
    congruence.
  - apply Qle_bool_iff in Ey.
    assert (Hx : (x <= 0)%Q).
    { apply Qnot_lt_le. intro Hlt. apply Qlt_le_weak in Hlt.
      apply Qle_bool_iff in Hlt. congruence. }
    apply Z.le_trans with 0.
    + change 0 with (Qceiling 0). now apply Qceiling_resp_le.
    + change 0 with (Qfloor 0). now apply Qfloor_resp_le.
  - now apply Qceiling_resp_le.
Qed.

(** Whenever [get_valid_times_for_job] returns a window with overlap
    disallowed, for any job index and any number of jobs, that window is
    ordered and lies within the window the same job gets with overlap
    allowed: output is never declared valid outside the valid chunk of the
    job. *)
Theorem no_overlap_window_within_valid_window :
  forall e seg sg i w,
    Forall well_formed (exe_valid_chunks e) ->
    segmenter_for e seg = Ok sg ->
    get_valid_times_for_job sg i false = Ok w ->
    exists v,
      get_valid_times_for_job sg i true = Ok v /\
      contains_seg v w = true /\
      seg_start w <= seg_end w.
Proof.
  intros e seg sg i w Hwf Hsg Hw.
  destruct (Z.eq_dec (num_jobs sg) 0) as [Hz|Hnz].
  { destruct (segmenter_for_no_jobs e seg sg Hwf Hsg Hz) as (_ & Hshift).
    unfold get_valid_times_for_job, shift_dur, get_job_time_shift in Hw.
    rewrite Hshift in Hw. discriminate. }
  destruct (segmenter_for_tiled e seg sg Hwf Hsg (or_intror Hnz)) as (HT & _).
  exists (valid_window sg i). split; [now apply tiled_valid_times|].
  pose proof (tiled_num_jobs sg HT) as Hn.
  unfold get_valid_times_for_job in Hw.
  rewrite (tiled_shift_dur sg HT) in Hw. cbn [bind negb] in Hw.
  destruct (Z.eqb_spec (num_jobs sg) 0) as [|_]; [contradiction|].
  change (shift (valid_chunk sg) (seg_start (curr_seg sg) + tiled_offset sg i))
    with (valid_window sg i) in Hw.
  set (dpj := ((curr_seg_length sg - inject_Z (data_loss sg))
               / inject_Z (num_jobs sg))%Q) in Hw.
  set (lower := (inject_Z i * dpj + inject_Z (seg_start (valid_chunk sg))
                 + inject_Z (seg_start (curr_seg sg)))%Q) in Hw.
  assert (Hdpj : (0 <= dpj)%Q).
  { unfold dpj. rewrite (tiled_length sg HT), <- inject_Z_minus.
    apply Qdiv_nonneg; [|lia]. destruct HT. lia. }
  assert (Hord : py_int lower <= py_int (dpj + lower + fudge)%Q).
  { apply py_int_mono.
    rewrite <- (Qplus_0_l lower) at 1. rewrite <- (Qplus_0_r (0 + lower)).
    apply Qplus_le_compat; [|discriminate].
    apply Qplus_le_compat; [exact Hdpj | apply Qle_refl]. }
  destruct (orb _ _) eqn:Echk; [discriminate|].
  apply orb_false_iff in Echk. rewrite !Z.ltb_ge in Echk.
  injection Hw as <-. rewrite segment_of_ordered by exact Hord.
  unfold contains_seg. cbn [seg_start seg_end].
  rewrite andb_true_iff, !Z.leb_le. lia.
Qed.

Lemma no_overlap_window_within_valid_window_witness :
  exists v,
    get_valid_times_for_job scenario_segmenter 1 true = Ok v /\
    contains_seg v (mk_seg 1536 3000) = true /\
    seg_start (mk_seg 1536 3000) <= seg_end (mk_seg 1536 3000).
Proof.
  apply (no_overlap_window_within_valid_window scenario_exe scenario_seg
           scenario_segmenter 1 (mk_seg 1536 3000)).
  - exact scenario_chunks_well_formed.
  - exact scenario_segmenter_built.
  - reflexivity.
Defined.

(** ** What the driver leaves behind *)

Section DriverInvariants.

Variable Node : Type.
Variable ExeState : Type.
Variable exe_tags_of : ExeState -> list string.
Variable update_current_tags : list string -> ExeState -> ExeState.
Variable create_node :
  ExeState -> segment -> segment -> option File -> option (list File) -> result Node.
Variable output_files : Node -> list File.
Variable find_outputs_in_range : list File -> string -> segment -> list File.
Variable find_all_output_in_range : list File -> string -> segment -> list File.

Local Abbreviation State := (DriverState Node ExeState).

Lemma grows_refl (st : State) : grows st st.
Proof. exists [], []. rewrite !app_nil_r. repeat split. constructor. Qed.

Lemma grows_same (st st' : State) :
  wf_nodes st' = wf_nodes st -> out_files st' = out_files st -> grows st st'.
Proof.
  intros Hn Hf. exists [], []. rewrite !app_nil_r. repeat split; auto.
Qed.

Lemma grows_trans (st1 st2 st3 : State) : grows st1 st2 -> grows st2 st3 -> grows st1 st3.
Proof.
  intros (n1 & f1 & Hn1 & Hf1 & Hp1) (n2 & f2 & Hn2 & Hf2 & Hp2).
  exists (n1 ++ n2), (f1 ++ f2).
  rewrite Hn2, Hn1, Hf2, Hf1, <- !app_assoc. repeat split.
  apply Forall_app. now split.
Qed.

Lemma only_appends_ret {A : Type} (a : A) : only_appends (@ret Node ExeState A a).
Proof. intro st. apply grows_refl. Qed.

Lemma only_appends_raise {A : Type} (err : exn) :
  only_appends (@raise Node ExeState A err).
Proof. intro st. apply grows_refl. Qed.

Lemma only_appends_lift {A : Type} (r : result A) :
  only_appends (@lift Node ExeState A r).
Proof. intro st. apply grows_refl. Qed.

Lemma only_appends_bind {A B : Type} (m : M Node ExeState A) (k : A -> M Node ExeState B) :
  only_appends m -> (forall a, only_appends (k a)) -> only_appends (bindM m k).
Proof.
  intros Hm Hk st. unfold bindM. specialize (Hm st).
  destruct (m st) as [st1 [a|err]]; cbn [fst] in *.
  - eapply grows_trans; [exact Hm | apply Hk].
  - exact Hm.
Qed.

Lemma only_appends_for_each {A : Type} (xs : list A) (body : A -> M Node ExeState unit) :
  (forall x, only_appends (body x)) -> only_appends (for_each xs body).
Proof.
  intro Hbody. induction xs as [|x rest IH]; cbn [for_each].
  - apply only_appends_ret.
  - apply only_appends_bind; [apply Hbody | intros _; exact IH].
Qed.

Lemma only_appends_emit_node exe_tags curr_parent d v curr_dfouts parent :
  only_appends (emit_node update_current_tags create_node output_files
                  exe_tags curr_parent d v curr_dfouts parent).
Proof.
  unfold emit_node.
  apply only_appends_bind.
  { destruct (negb _); [|apply only_appends_ret].
    destruct parent; [|apply only_appends_raise].
    intro st. cbn. now apply grows_same. }
  intros _. apply only_appends_bind.
  { intro st. unfold call_create_node. cbn [fst]. apply grows_refl. }
  intro node. apply only_appends_bind.
  { intro st. cbn. exists [node], []. rewrite app_nil_r. repeat split. constructor. }
  intros _ st. cbn.
  exists [], (filter (fun i => negb (tag_in "PSD_FILE" (file_tags i)))
                     (output_files node)).
  rewrite app_nil_r. repeat split.
  apply Forall_forall. intros f Hf. apply filter_In in Hf as (_ & Hf).
  unfold not_psd. now apply negb_true_iff in Hf.
Qed.

Lemma only_appends_setup_job ifo parents dfs allow exe_tags sg i :
  only_appends (setup_job update_current_tags create_node output_files
                  find_outputs_in_range find_all_output_in_range
                  ifo parents dfs allow exe_tags sg i).
Proof.
  unfold setup_job.
  apply only_appends_bind; [apply only_appends_lift|]. intros v.
  apply only_appends_bind; [apply only_appends_lift|]. intros d.
  apply only_appends_bind; [apply only_appends_lift|]. intros [cp cdf].
  apply only_appends_for_each. intro p. apply only_appends_emit_node.
Qed.

Lemma only_appends_setup_segment ifo e parents dfs allow exe_tags seg :
  only_appends (setup_segment update_current_tags create_node output_files
                  find_outputs_in_range find_all_output_in_range
                  ifo e parents dfs allow exe_tags seg).
Proof.
  unfold setup_segment.
  apply only_appends_bind; [apply only_appends_lift|]. intro sg.
  apply only_appends_for_each. intro i. apply only_appends_setup_job.
Qed.

(** Whatever [sngl_ifo_job_setup] does, and also when it raises, the nodes
    already in the workflow and the files already in [out_files] are kept
    in place: nodes and files are only appended.  No appended file carries
    the [PSD_FILE] tag, and on return the result is [out_files] as
    extended. *)
Theorem driver_only_appends :
  forall ifo e science_segs dfs parents allow_overlap (st : State),
    let run := sngl_ifo_job_setup exe_tags_of update_current_tags create_node
                 output_files find_outputs_in_range find_all_output_in_range
                 ifo e science_segs dfs parents allow_overlap st in
    exists nodes files,
      wf_nodes (fst run) = wf_nodes st ++ nodes /\
      out_files (fst run) = out_files st ++ files /\
      Forall (fun f => tag_in "PSD_FILE" (file_tags f) = false) files /\
      forall returned, snd run = Ok returned -> returned = out_files st ++ files.
Proof.
  intros ifo e segs dfs parents allow st. cbv zeta.
  unfold sngl_ifo_job_setup.
  pose proof (only_appends_for_each segs
                (setup_segment update_current_tags create_node output_files
                   find_outputs_in_range find_all_output_in_range
                   ifo e parents dfs allow (exe_tags_of (exe_state st)))
                (fun seg => only_appends_setup_segment _ _ _ _ _ _ seg) st) as Hg.
  destruct (for_each segs _ st) as [st' [[]|err]]; cbn [fst snd] in *;
    destruct Hg as (nodes & files & Hn & Hf & Hp);
    exists nodes, files; repeat split; try assumption.
  - intros returned H. injection H as <-. exact Hf.
  - intros returned H. discriminate.
Qed.

(** *** One node per job *)



Section OneNodePerJob.

Variable ifo : string.
Variable parents : option (list File).
Variable dfs : list File.
Variable exe_tags : list string.
Hypothesis no_parents : truthy_opt parents = false.
Hypothesis data_found :
  truthy dfs = true -> forall target, find_all_output_in_range dfs ifo target <> [].
Hypothesis node_created :
  forall es d v df, exists node, create_node es d v None df = Ok node.

Local Abbreviation job :=
  (setup_job update_current_tags create_node output_files
     find_outputs_in_range find_all_output_in_range ifo parents dfs true exe_tags).





End OneNodePerJob.


End DriverInvariants.



(** ** The coherent setup *)

Lemma list_back_cases {A : Type} (xs : list A) :
  xs = [] \/ (exists a, xs = [a]) \/ (exists pre a b, xs = pre ++ [a; b]).
Proof.
  destruct (rev xs) as [|b [|a rpre]] eqn:E.
  - left. apply (f_equal (@rev A)) in E. now rewrite rev_involutive in E.
  - right. left. exists b.
    apply (f_equal (@rev A)) in E. now rewrite rev_involutive in E.
  - right. right. exists (rev rpre), a, b.
    apply (f_equal (@rev A)) in E. rewrite rev_involutive in E.
    rewrite E. simpl. now rewrite <- app_assoc.
Qed.

Lemma py_index_back_last {A : Type} (pre : list A) (a : A) :
  py_index_back (pre ++ [a]) 1 = Ok a.
Proof.
  unfold py_index_back, py_index. rewrite length_app. simpl.
  destruct (Nat.ltb_spec (List.length pre + 1) 1); [lia|].
  rewrite nth_error_app2 by lia.
  replace (List.length pre + 1 - 1 - List.length pre)%nat with 0%nat by lia.
  reflexivity.
Qed.

Lemma py_index_back_second {A : Type} (pre : list A) (a b : A) :
  py_index_back (pre ++ [a; b]) 2 = Ok a.
Proof.
  unfold py_index_back, py_index. rewrite length_app. simpl.
  destruct (Nat.ltb_spec (List.length pre + 2) 2); [lia|].
  rewrite nth_error_app2 by lia.
  replace (List.length pre + 2 - 2 - List.length pre)%nat with 0%nat by lia.
  reflexivity.
Qed.

Lemma py_drop_back_app {A : Type} (pre post : list A) :
  py_drop_back (pre ++ post) (List.length post) = pre.
Proof.
  unfold py_drop_back. rewrite length_app.
  replace (List.length pre + List.length post - List.length post)%nat
    with (List.length pre + 0)%nat by lia.
  rewrite firstn_app_2. simpl. apply app_nil_r.
Qed.

(** The split of [datafind_outs] in [multi_ifo_coherent_job_setup] loses
    and duplicates nothing: whenever it returns, the list is the frame
    files followed by the bank veto file and the sky points file that were
    found, and sky points are only found together with a bank veto file.
    It raises [IndexError] exactly when the list is empty or holds a single
    file whose description contains "IPN". *)
Theorem split_datafind_outs_keeps_all :
  forall datafind_outs,
    (forall ipn_sky_points bank_veto frame_files,
        split_datafind_outs datafind_outs
          = Ok (ipn_sky_points, bank_veto, frame_files) ->
        datafind_outs = frame_files ++ opt_list bank_veto ++ opt_list ipn_sky_points /\
        (ipn_sky_points <> None -> bank_veto <> None)) /\
    (forall err, split_datafind_outs datafind_outs = Raise err -> err = IndexError) /\
    (is_ok (split_datafind_outs datafind_outs) = false <->
     datafind_outs = [] \/
     exists f, datafind_outs = [f] /\ str_in "IPN" (coh_description f) = true).
Proof.
  intro dfs.
  destruct (list_back_cases dfs) as [->|[(a & ->)|(pre & a & b & ->)]].
  - split; [|split].
    + intros ? ? ? H. discriminate.
    + intros err H. now injection H.
    + split; [now left | reflexivity].
  - unfold split_datafind_outs.
    assert (Hl : py_index_back [a] 1 = Ok a) by reflexivity.
    rewrite Hl. cbn [bind].
    destruct (str_in "IPN" (coh_description a)) eqn:Eipn.
    + cbn. split; [|split].
      * intros ? ? ? H. discriminate.
      * intros err H. now injection H.
      * split; [|reflexivity]. intros _. right. exists a. auto.
    + cbn [bind]. destruct (str_in "bank_veto_bank" (coh_name a)) eqn:Ev.
      * cbn [bind]. split; [|split].
        -- intros ? ? ? H. injection H as <- <- <-. split; [reflexivity|congruence].
        -- intros err H. discriminate.
        -- split; [discriminate|]. intros [H|(f & H & Hf)]; [discriminate|].
           injection H as <-. congruence.
      * split; [|split].
        -- intros ? ? ? H. injection H as <- <- <-. split; [reflexivity|congruence].
        -- intros err H. discriminate.
        -- split; [discriminate|]. intros [H|(f & H & Hf)]; [discriminate|].
           injection H as <-. congruence.
  - assert (Hlast : py_index_back (pre ++ [a; b]) 1 = Ok b).
    { replace (pre ++ [a; b]) with ((pre ++ [a]) ++ [b])
        by (now rewrite <- app_assoc).
      apply py_index_back_last. }
    assert (Hdrop2 : py_drop_back (pre ++ [a; b]) 2 = pre)
      by (apply (py_drop_back_app pre [a; b])).
    assert (Hdrop1 : py_drop_back (pre ++ [a; b]) 1 = pre ++ [a]).
    { replace (pre ++ [a; b]) with ((pre ++ [a]) ++ [b])
        by (now rewrite <- app_assoc).
      apply (py_drop_back_app (pre ++ [a]) [b]). }
    assert (Hnonempty : forall f, pre ++ [a; b] <> [f]).
    { intros f H. apply (f_equal (@List.length CohFile)) in H.
      rewrite length_app in H. simpl in H. lia. }
    assert (Hne : pre ++ [a; b] <> []).
    { intro H. apply (f_equal (@List.length CohFile)) in H.
      rewrite length_app in H. simpl in H. lia. }
    unfold split_datafind_outs.
    rewrite Hlast, py_index_back_second. cbn [bind].
    destruct (str_in "IPN" (coh_description b)) eqn:Eipn; cbn [bind].
    + destruct (str_in "bank_veto_bank" (coh_description a)) eqn:Eva; cbn [bind].
      * rewrite Hdrop2. split; [|split].
        -- intros ? ? ? H. injection H as <- <- <-. split; [reflexivity|congruence].
        -- intros err H. discriminate.
        -- split; [discriminate|]. intros [H|(f & H & _)]; [contradiction|].
           now apply Hnonempty in H.
      * destruct (str_in "bank_veto_bank" (coh_name b)) eqn:Ev; cbn [bind].
        -- rewrite Hdrop1. split; [|split].
           ++ intros ? ? ? H. injection H as <- <- <-.
              split; [now rewrite <- app_assoc | congruence].
           ++ intros err H. discriminate.
           ++ split; [discriminate|]. intros [H|(f & H & _)]; [contradiction|].
              now apply Hnonempty in H.
        -- split; [|split].
           ++ intros ? ? ? H. injection H as <- <- <-.
              split; [now rewrite !app_nil_r | congruence].
           ++ intros err H. discriminate.
           ++ split; [discriminate|]. intros [H|(f & H & _)]; [contradiction|].
              now apply Hnonempty in H.
    + destruct (str_in "bank_veto_bank" (coh_name b)) eqn:Ev; cbn [bind].
      * rewrite Hdrop1. split; [|split].
        -- intros ? ? ? H. injection H as <- <- <-.
           split; [now rewrite <- app_assoc | congruence].
        -- intros err H. discriminate.
        -- split; [discriminate|]. intros [H|(f & H & _)]; [contradiction|].
           now apply Hnonempty in H.
      * split; [|split].
        -- intros ? ? ? H. injection H as <- <- <-.
           split; [now rewrite !app_nil_r | congruence].
        -- intros err H. discriminate.
        -- split; [discriminate|]. intros [H|(f & H & _)]; [contradiction|].
           now apply Hnonempty in H.
Qed.

Lemma split_datafind_outs_keeps_all_witness :
  [frame_h1; frame_l1; veto_bank; sky_points]
    = [frame_h1; frame_l1] ++ opt_list (Some veto_bank) ++ opt_list (Some sky_points) /\
  (Some sky_points <> None -> Some veto_bank <> None).
Proof.
  apply (proj1 (split_datafind_outs_keeps_all
                  [frame_h1; frame_l1; veto_bank; sky_points])
           (Some sky_points) (Some veto_bank) [frame_h1; frame_l1]).
  reflexivity.
Defined.

Section CoherentFacts.

Variable Node : Type.
Variable ExeState : Type.
Variable Slide : Type.
Variable coh_create_node :
  segment -> segment -> CohFile -> option CohFile -> list CohFile ->
  option CohFile -> option CohFile -> option Slide -> list string -> result Node.
Variable output_files : Node -> list File.

Variables data_seg job_valid_seg : segment.
Variable frame_files : list CohFile.
Variables bank_veto ipn_sky_points : option CohFile.

Local Abbreviation State := (DriverState Node ExeState).
Local Abbreviation created call node :=
  (coh_create_node data_seg job_valid_seg (snd (fst (fst call))) (fst (fst (fst call)))
     frame_files bank_veto ipn_sky_points (snd (fst call)) (snd call) = Ok node).

Hypothesis node_created :
  forall split_bank inj_file slide tag,
    exists node,
      coh_create_node data_seg job_valid_seg split_bank inj_file frame_files
        bank_veto ipn_sky_points slide tag = Ok node.

Lemma coh_banks_loop_nodes (inj_file : option CohFile) (slide : option Slide)
    (tag_of : CohFile -> list string) (parents : list CohFile) :
  forall (acc : list File) (st : State),
    exists nodes st',
      coh_banks_loop
        (fun split_bank =>
           coh_emit coh_create_node output_files data_seg job_valid_seg frame_files
             bank_veto ipn_sky_points slide (tag_of split_bank) inj_file split_bank)
        parents acc st
      = (st', Ok (acc ++ flat_map output_files nodes)) /\
      wf_nodes st' = wf_nodes st ++ nodes /\
      out_files st' = out_files st /\ exe_state st' = exe_state st /\
      Forall2 (fun call node => created call node)
              (map (fun split_bank => (inj_file, split_bank, slide, tag_of split_bank))
                   parents)
              nodes.
Proof.
  induction parents as [|bank rest IH]; intros acc st.
  - exists [], st. cbn. rewrite !app_nil_r. repeat split. constructor.
  - destruct (node_created bank inj_file slide (tag_of bank)) as (node & Hnode).
    set (st1 := {| wf_nodes := wf_nodes st ++ [node];
                   exe_state := exe_state st;
                   out_files := out_files st |}).
    destruct (IH (acc ++ output_files node) st1)
      as (nodes & st' & Hrun & Hwf & Hout & Hexe & Hall).
    exists (node :: nodes), st'. split; [|split; [|split; [|split]]].
    + cbn [coh_banks_loop]. unfold bindM at 1. unfold coh_emit at 1.
      unfold bindM at 1. unfold lift at 1. rewrite Hnode.
      unfold bindM at 1. cbn [add_node]. unfold ret at 1.
      fold st1. rewrite Hrun. cbn [flat_map]. now rewrite <- app_assoc.
    + rewrite Hwf. subst st1. cbn [wf_nodes]. now rewrite <- app_assoc.
    + rewrite Hout. reflexivity.
    + rewrite Hexe. reflexivity.
    + cbn [map]. constructor; [exact Hnode | exact Hall].
Qed.

Lemma coh_inj_loop_nodes (tags : list string) (parents injection_files : list CohFile) :
  forall (acc : list File) (st : State),
    exists nodes st',
      coh_inj_loop
        (fun inj_file =>
           coh_banks_loop
             (fun split_bank =>
                coh_emit coh_create_node output_files data_seg job_valid_seg
                  frame_files bank_veto ipn_sky_points None
                  ((tags ++ [coh_tag_str inj_file]) ++ [coh_tag_str split_bank])
                  (Some inj_file) split_bank)
             parents)
        injection_files acc st
      = (st', Ok (acc ++ flat_map output_files nodes)) /\
      wf_nodes st' = wf_nodes st ++ nodes /\
      out_files st' = out_files st /\ exe_state st' = exe_state st /\
      Forall2 (fun call node => created call node)
              (coh_calls (Some injection_files) parents (@None Slide) tags)
              nodes.
Proof.
  induction injection_files as [|inj rest IH]; intros acc st.
  - exists [], st. cbn. rewrite !app_nil_r. repeat split. constructor.
  - destruct (coh_banks_loop_nodes (Some inj) None
                (fun split_bank =>
                   (tags ++ [coh_tag_str inj]) ++ [coh_tag_str split_bank])
                parents acc st)
      as (nodes1 & st1 & Hrun1 & Hwf1 & Hout1 & Hexe1 & Hall1).
    destruct (IH (acc ++ flat_map output_files nodes1) st1)
      as (nodes2 & st' & Hrun2 & Hwf2 & Hout2 & Hexe2 & Hall2).
    exists (nodes1 ++ nodes2), st'. split; [|split; [|split; [|split]]].
    + cbn [coh_inj_loop]. unfold bindM at 1. rewrite Hrun1, Hrun2.
      now rewrite flat_map_app, <- app_assoc.
    + rewrite Hwf2, Hwf1. now rewrite <- app_assoc.
    + congruence.
    + congruence.
    + cbn [coh_calls flat_map]. apply Forall2_app; [exact Hall1 | exact Hall2].
Qed.

End CoherentFacts.

(** When the split of [datafind_outs] returns and [create_node] returns for
    the arguments it is given, [multi_ifo_coherent_job_setup] adds one node
    per split bank, or one per pair of injection file and split bank, in
    the order of the loops.  Every node is created with the same data and
    valid segments, the frame files without the bank veto and sky points
    files, and its own tags; the slide is passed on only without injection
    files.  [out_files] is extended by the output files of the new nodes
    that do not carry the [PSD_FILE] tag.  When the split raises, the
    exception propagates and nothing is added. *)
Theorem coherent_setup_one_node_per_bank :
  forall (Node ExeState Slide : Type)
         (coh_create_node :
            segment -> segment -> CohFile -> option CohFile -> list CohFile ->
            option CohFile -> option CohFile -> option Slide -> list string ->
            result Node)
         (output_files : Node -> list File)
         data_seg job_valid_seg injection_file datafind_outs parents slide_dict tags
         (st : DriverState Node ExeState),
    (forall ipn_sky_points bank_veto frame_files,
        split_datafind_outs datafind_outs
          = Ok (ipn_sky_points, bank_veto, frame_files) ->
        (forall split_bank inj_file slide tag,
            exists node,
              coh_create_node data_seg job_valid_seg split_bank inj_file frame_files
                bank_veto ipn_sky_points slide tag = Ok node) ->
        exists nodes st',
          multi_ifo_coherent_job_setup coh_create_node output_files data_seg
            job_valid_seg injection_file datafind_outs parents slide_dict tags st
          = (st', Ok (out_files st')) /\
          wf_nodes st' = wf_nodes st ++ nodes /\
          out_files st'
          = out_files st
            ++ filter (fun i => negb (tag_in "PSD_FILE" (file_tags i)))
                      (flat_map output_files nodes) /\
          Forall2 (fun call node =>
                     coh_create_node data_seg job_valid_seg (snd (fst (fst call)))
                       (fst (fst (fst call))) frame_files bank_veto ipn_sky_points
                       (snd (fst call)) (snd call) = Ok node)
                  (coh_calls injection_file parents slide_dict tags) nodes /\
          List.length nodes
          = match injection_file with
            | None => List.length parents
            | Some injection_files =>
                (List.length injection_files * List.length parents)%nat
            end) /\
    (forall err,
        split_datafind_outs datafind_outs = Raise err ->
        multi_ifo_coherent_job_setup coh_create_node output_files data_seg
          job_valid_seg injection_file datafind_outs parents slide_dict tags st
        = (st, Raise err)).
Proof.
  intros Node ExeState Slide create outs d v inj dfs parents slide tags st. split.
  - intros ipn veto frames Hsplit Hcreate.
    assert (Hloop : exists nodes st1,
               (match inj with
                | None =>
                    coh_banks_loop
                      (fun split_bank =>
                         coh_emit create outs d v frames veto ipn slide
                           (tags ++ [coh_tag_str split_bank]) None split_bank)
                      parents []
                | Some injection_files =>
                    coh_inj_loop
                      (fun inj_file =>
                         coh_banks_loop
                           (fun split_bank =>
                              coh_emit create outs d v frames veto ipn None
                                ((tags ++ [coh_tag_str inj_file])
                                 ++ [coh_tag_str split_bank])
                                (Some inj_file) split_bank)
                           parents)
                      injection_files []
                end) st = (st1, Ok ([] ++ flat_map outs nodes)) /\
               wf_nodes st1 = wf_nodes st ++ nodes /\
               out_files st1 = out_files st /\ exe_state st1 = exe_state st /\
               Forall2 (fun call node =>
                          create d v (snd (fst (fst call))) (fst (fst (fst call)))
                            frames veto ipn (snd (fst call)) (snd call) = Ok node)
                       (coh_calls inj parents slide tags) nodes).
    { destruct inj as [injs|].
      - apply coh_inj_loop_nodes. exact Hcreate.
      - apply (coh_banks_loop_nodes Node ExeState Slide create outs d v frames veto ipn
                 Hcreate None slide (fun b => tags ++ [coh_tag_str b])). }
    destruct Hloop as (nodes & st1 & Hrun & Hwf & Hout & Hexe & Hall).
    cbn [app] in Hrun.
    eexists nodes, _. split; [|split; [|split; [|split]]].
    + unfold multi_ifo_coherent_job_setup. unfold bindM at 1. unfold lift at 1.
      rewrite Hsplit. unfold bindM at 1. rewrite Hrun.
      unfold bindM at 1. cbn [extend_out_files]. reflexivity.
    + cbn [wf_nodes]. exact Hwf.
    + cbn [out_files]. now rewrite Hout.
    + exact Hall.
    + apply Forall2_length in Hall. rewrite <- Hall. unfold coh_calls.
      destruct inj as [injs|]; [|now rewrite length_map].
      clear. induction injs as [|i rest IH]; [reflexivity|].
      cbn [flat_map]. rewrite length_app, length_map, IH. simpl. lia.
  - intros err Hsplit.
    unfold multi_ifo_coherent_job_setup, bindM, lift. now rewrite Hsplit.
Qed.

Lemma coherent_setup_one_node_per_bank_witness :
  exists nodes st',
    multi_ifo_coherent_job_setup
      (fun d v bank inj frames veto ipn (slide : option unit) tag =>
         Ok (tag, d, v, None, None))
      no_output_files scenario_seg (mk_seg 72 5928) None
      [frame_h1; frame_l1; veto_bank; sky_points] [frame_h1; frame_l1] None []
      empty_state
    = (st', Ok (out_files st')) /\
    wf_nodes st' = wf_nodes empty_state ++ nodes /\
    out_files st'
    = out_files empty_state
      ++ filter (fun i => negb (tag_in "PSD_FILE" (file_tags i)))
                (flat_map no_output_files nodes) /\
    Forall2 (fun call node =>
               @Ok RecordedNode
                 (snd call, scenario_seg, mk_seg 72 5928, None, None) = Ok node)
            (coh_calls None [frame_h1; frame_l1] (@None unit) []) nodes /\
    List.length nodes = List.length [frame_h1; frame_l1].
Proof.
  apply (proj1 (coherent_setup_one_node_per_bank RecordedNode (list string) unit
                  (fun d v bank inj frames veto ipn (slide : option unit) tag =>
                     Ok (tag, d, v, None, None))
                  no_output_files scenario_seg (mk_seg 72 5928) None
                  [frame_h1; frame_l1; veto_bank; sky_points] [frame_h1; frame_l1]
                  None [] empty_state)
           (Some sky_points) (Some veto_bank) [frame_h1; frame_l1]).
  - reflexivity.
  - intros. eexists. reflexivity.
Defined.

(** ** Selection by the name of the executable *)

Lemma str_in_slash_app (dir name : string) :
  str_in "/" (dir ++ String "/" name)%string = true.
Proof.
  induction dir as [|c dir IH].
  - cbn [String.append str_in].
    assert (Hp : prefix "/" (String "/" name) = true).
    { apply prefix_correct. destruct name; reflexivity. }
    now rewrite Hp.
  - cbn [String.append str_in]. rewrite IH. apply orb_true_r.
Qed.

Lemma basename_no_slash (name : string) :
  str_in "/" name = false -> basename name = name.
Proof.
  destruct name as [|c rest]; [reflexivity|].
  intro H. cbn [str_in] in H. apply orb_false_iff in H as (Hc & Hrest).
  cbn [basename]. rewrite Hrest.
  destruct (Ascii.eqb_spec c "/") as [->|_]; [|reflexivity].
  assert (Hp : prefix "/" (String "/" rest) = true).
  { apply prefix_correct. destruct rest; reflexivity. }
  congruence.
Qed.

Lemma basename_app (dir name : string) :
  str_in "/" name = false ->
  basename (dir ++ String "/" name)%string = name.
Proof.
  intro H. induction dir as [|c dir IH].
  - cbn [String.append basename]. rewrite H. reflexivity.
  - cbn [String.append basename]. rewrite str_in_slash_app. exact IH.
Qed.

(** [select_generic_executable] looks at the file name of the path only:
    for a name without a slash, any directory in front of it gives the
    class, or the error, of the bare name; and the error names the file
    name, not the path. *)
Theorem select_generic_executable_by_basename :
  forall dir name,
    str_in "/" name = false ->
    select_generic_executable (dir ++ String "/" name)%string
      = select_generic_executable name /\
    (forall msg,
        select_generic_executable (dir ++ String "/" name)%string
          = NotImplementedError msg ->
        no_job_class name = NotImplementedError msg).
Proof.
  intros dir name H. unfold select_generic_executable.
  rewrite (basename_app dir name H), (basename_no_slash name H).
  split; [reflexivity|].
  intros msg Hsel. unfold select_from in *.
  destruct (dict_get _ name); [discriminate | exact Hsel].
Qed.

Lemma select_generic_executable_by_basename_witness :
  select_generic_executable ("/usr/bin" ++ String "/" "ligolw_add")%string
    = select_generic_executable "ligolw_add" /\
  (forall msg,
      select_generic_executable ("/usr/bin" ++ String "/" "ligolw_add")%string
        = NotImplementedError msg ->
      no_job_class "ligolw_add" = NotImplementedError msg).
Proof.
  apply (select_generic_executable_by_basename "/usr/bin" "ligolw_add").
  reflexivity.
Defined.
